(** * A shallow embedding of the streaming JSON encoder (encoder.go)

    The encoder is a pooled object that accumulates JSON tokens in a
    [bytes.Buffer], flushes the buffer to an [io.PipeWriter] once it holds
    [MAXBUFSIZE] bytes, and can reformat the pending bytes into indented
    JSON before a write.

    Conventions of the embedding:
    - a byte is [Byte.byte], a byte slice is [list byte];
    - Go's [int] and [int64] are [Z] with the two's complement wrap-around
      written out ([wrap64]);
    - pointers that may be [nil] ([enc.b], [enc.w], [enc.ctx]) are options;
    - a Go panic is the [Panic] outcome of the state-and-panic monad [M];
      it carries the state at the moment of the panic, which is the state a
      deferred [Release] runs in;
    - the pipe is [io.Pipe] seen from the writing side: a [Write] either
      fails because an end is closed or hands the whole chunk to the
      reader; a [Write] that blocks for ever has no outcome here;
    - what Go's libraries and runtime decide is a parameter (the capacity
      [bytes.Buffer] reallocates to, the zone offset of the local time) or
      a model of the library function ([strconv.AppendUint],
      [Time.AppendFormat], [math.Floor], [math.Pow] at powers of ten).

    Left out: [Logf] (the process log), the contents of the three
    [sync.Pool]s (every buffer taken from a pool is reset before use) and
    the scheduling of the goroutine of [WithTimeout], of which the branch
    taken when the timer fires is one step of the model ([timerFires]).
    The text [strconv.AppendFloat] gives for a float64 is a parameter of
    the float writers. *)

From Stdlib Require Import ZArith List Bool Lia.
From Stdlib Require Import Strings.Byte Strings.String.
From Stdlib Require Import DecimalString DecimalN.
From Stdlib Require Import Floats.PrimFloat Floats.SpecFloat Floats.FloatOps.
Import ListNotations.

#[local] Set Warnings "-inexact-float".

Local Open Scope Z_scope.

(** ** Byte constants (the [var (...)] block of encoder.go) *)

Definition quoteMark : byte := x22.
Definition delim     : byte := x2c.
Definition colon     : byte := x3a.
Definition lBrace    : byte := x7b.
Definition rBrace    : byte := x7d.
Definition lBracket  : byte := x5b.
Definition rBracket  : byte := x5d.
Definition newLine   : byte := x0a.
Definition space     : byte := x20.
Definition tab       : byte := x09.
Definition backslash : byte := x5c.

(** ** Constants (the [const (...)] block) *)

Definition bytes_of (s : string) : list byte := list_byte_of_string s.

Definition ISO8601    : list byte := bytes_of "2006-01-02T15:04:05".
Definition ISO8601u   : list byte := bytes_of "2006-01-02T15:04:05+00".
Definition MAXBUFSIZE : Z := 4096.
Definition INDENT     : Z := 4.
Definition SPACE_MODE : Z := 0.
Definition TAB_MODE   : Z := 1.
Definition PRECISION  : Z := 6.

(** ** Machine integers *)

(** Two's complement wrap-around of a 64-bit signed integer ([int64], and
    [int] on 64-bit targets). *)
Definition wrap64 (z : Z) : Z := (z + 2 ^ 63) mod 2 ^ 64 - 2 ^ 63.

(** [len] of a slice as a Go [int]. *)
Definition len (l : list byte) : Z := Z.of_nat (List.length l).

(** ** Data model *)

(** [bytes.Buffer], as far as the encoder observes it: the unread bytes and
    the capacity of the backing array. *)
Record Buffer := mkBuffer {
  unread : list byte;
  capacity : Z
}.

Record EncoderConfig := mkConfig {
  Indent        : Z;
  Logging       : bool;
  UTCTimestamps : bool;
  Round         : bool;
  Precision     : Z;
  Pretty        : bool
}.

(** The pipe behind [*io.PipeWriter].  [received] lists, oldest first, the
    chunks the reading side has taken, one per successful [Write];
    [rclosed] and [wclosed] say which ends have been closed. *)
Record Pipe := mkPipe {
  received : list (list byte);
  rclosed  : bool;
  wclosed  : bool
}.

(** [type Encoder struct].  [w] is [true] when the encoder points at the
    pipe of the surrounding [World] and [false] when it is [nil]; [ctx] is
    [None] for a [nil] context and [Some fired] otherwise, [fired] telling
    whether [cancel] has been called (the [Done] channel is closed). *)
Record Encoder := mkEncoder {
  b   : option Buffer;
  n   : Z;
  f   : Z;
  d   : Z;
  s   : bool;
  recoveredPanicsCounter : Z;
  encoderTimeoutsCounter : Z;
  w   : bool;
  c   : EncoderConfig;
  ctx : option bool
}.

(** The encoder together with the pipe it shares with the reading side. *)
Record World := mkWorld {
  enc  : Encoder;
  pipe : Pipe
}.

(** Field updates. *)
Definition set_b (v : option Buffer) (e : Encoder) : Encoder :=
  mkEncoder v (n e) (f e) (d e) (s e) (recoveredPanicsCounter e)
            (encoderTimeoutsCounter e) (w e) (c e) (ctx e).
Definition set_n (v : Z) (e : Encoder) : Encoder :=
  mkEncoder (b e) v (f e) (d e) (s e) (recoveredPanicsCounter e)
            (encoderTimeoutsCounter e) (w e) (c e) (ctx e).
Definition set_f (v : Z) (e : Encoder) : Encoder :=
  mkEncoder (b e) (n e) v (d e) (s e) (recoveredPanicsCounter e)
            (encoderTimeoutsCounter e) (w e) (c e) (ctx e).
Definition set_d (v : Z) (e : Encoder) : Encoder :=
  mkEncoder (b e) (n e) (f e) v (s e) (recoveredPanicsCounter e)
            (encoderTimeoutsCounter e) (w e) (c e) (ctx e).
Definition set_s (v : bool) (e : Encoder) : Encoder :=
  mkEncoder (b e) (n e) (f e) (d e) v (recoveredPanicsCounter e)
            (encoderTimeoutsCounter e) (w e) (c e) (ctx e).
Definition set_w (v : bool) (e : Encoder) : Encoder :=
  mkEncoder (b e) (n e) (f e) (d e) (s e) (recoveredPanicsCounter e)
            (encoderTimeoutsCounter e) v (c e) (ctx e).
Definition set_c (v : EncoderConfig) (e : Encoder) : Encoder :=
  mkEncoder (b e) (n e) (f e) (d e) (s e) (recoveredPanicsCounter e)
            (encoderTimeoutsCounter e) (w e) v (ctx e).
Definition set_ctx (v : option bool) (e : Encoder) : Encoder :=
  mkEncoder (b e) (n e) (f e) (d e) (s e) (recoveredPanicsCounter e)
            (encoderTimeoutsCounter e) (w e) (c e) v.

(** ** The state-and-panic monad *)

Inductive Result (A : Type) : Type :=
| Ok (a : A) (st : World)
| Panic (st : World).
Arguments Ok {A} a st.
Arguments Panic {A} st.

Definition M (A : Type) : Type := World -> Result A.

Definition ret {A} (a : A) : M A := fun st => Ok a st.
Definition bind {A B} (m : M A) (k : A -> M B) : M B :=
  fun st => match m st with
           | Ok a st' => k a st'
           | Panic st' => Panic st'
           end.
Definition panic {A} : M A := fun st => Panic st.
Definition getEnc : M Encoder := fun st => Ok (enc st) st.
Definition modEnc (g : Encoder -> Encoder) : M unit :=
  fun st => Ok tt (mkWorld (g (enc st)) (pipe st)).
Definition getPipe : M Pipe := fun st => Ok (pipe st) st.
Definition putPipe (p : Pipe) : M unit :=
  fun st => Ok tt (mkWorld (enc st) p).

Declare Scope go_scope.
Delimit Scope go_scope with go.
Notation "x <- m ;; k" := (bind m (fun x => k))
  (at level 61, m at next level, right associativity) : go_scope.
Notation "m ;;; k" := (bind m (fun _ => k))
  (at level 61, right associativity) : go_scope.
Local Open Scope go_scope.

(** Dereferencing [enc.b]: a [nil] buffer panics. *)
Definition theBuffer : M Buffer :=
  e <- getEnc ;;
  match b e with
  | Some buf => ret buf
  | None => panic
  end.

(** [<-enc.Done()] in a [select] with a [default] branch: whether the
    context has been cancelled.  A [nil] context panics. *)
Definition isDone : M bool :=
  e <- getEnc ;;
  match ctx e with
  | Some fired => ret fired
  | None => panic
  end.

(** ** Helpers on bytes *)

Definition is_byte (x y : byte) : bool := Byte.eqb x y.

Section Encoder.

(** The reallocation policy of [bytes.Buffer] (Go's standard library and
    runtime, outside this repository): [grow cap need] is the capacity of the
    backing array after the buffer, of capacity [cap], has made room for
    [need] bytes that did not fit. *)
Variable grow : Z -> Z -> Z.

(** The zone offset, in seconds east of UTC, that the process-wide local
    [time.Location] gives for an instant in unix seconds (the time zone
    database of the machine). *)
Variable localOffset : Z -> Z.

(** ** [bytes.Buffer] *)

(** [Reset]: the buffer becomes empty and keeps its backing array. *)
Definition buf_Reset (x : Buffer) : Buffer := mkBuffer [] (capacity x).

(** [Write] and [WriteByte]: append, reallocating when the bytes do not fit. *)
Definition buf_Write (p : list byte) (x : Buffer) : Buffer :=
  let data := unread x ++ p in
  mkBuffer data (if len data <=? capacity x then capacity x
                 else grow (capacity x) (len data)).

Definition buf_WriteByte (v : byte) (x : Buffer) : Buffer := buf_Write [v] x.

(** [Grow n] on a buffer: room for [n] more bytes. *)
Definition buf_Grow (k : Z) (x : Buffer) : Buffer :=
  let need := len (unread x) + k in
  mkBuffer (unread x) (if need <=? capacity x then capacity x
                       else grow (capacity x) need).

(** ** [io.PipeWriter] *)

(** [enc.w.Write(data)]: a [nil] writer panics; a pipe with a closed end
    returns an error and takes nothing; otherwise the reading side takes the
    whole chunk.  The result is [(n, err != nil)]. *)
Definition pipe_Write (data : list byte) : M (Z * bool) :=
  e <- getEnc ;;
  if w e then
    p <- getPipe ;;
    if rclosed p || wclosed p then ret (0, true)
    else putPipe (mkPipe (received p ++ [data]) (rclosed p) (wclosed p)) ;;;
         ret (len data, false)
  else panic.

(** [enc.w.Close()]: closes the writing end; closing twice is harmless; a
    [nil] writer panics. *)
Definition pipe_Close : M unit :=
  e <- getEnc ;;
  if w e then
    p <- getPipe ;;
    putPipe (mkPipe (received p) (rclosed p) true)
  else panic.

(** [enc.cancel()]: fires the cancellation token; a [nil] func panics. *)
Definition cancel : M unit :=
  e <- getEnc ;;
  match ctx e with
  | Some _ => modEnc (set_ctx (Some true))
  | None => panic
  end.

(** ** Construction and configuration *)

Definition NewEncoder : Encoder :=
  mkEncoder None 0 0 0 false 0 0 false
    (mkConfig SPACE_MODE true false true PRECISION false)
    None.

(** [GetEncoder(w)].  [encPool] is never given an encoder back, so [Get]
    always runs [New]; [pooled] is the buffer [bufPool.Get()] hands out and
    [attached] tells whether [w] is a non-nil writer. *)
Definition GetEncoder (attached : bool) (pooled : Buffer) : Encoder :=
  let e := NewEncoder in
  let b0 := buf_Reset pooled in
  let b1 := if capacity b0 <? MAXBUFSIZE
            then buf_Grow (MAXBUFSIZE - capacity b0) b0 else b0 in
  set_w attached (set_ctx (Some false) (set_b (Some b1) e)).

(** [EncoderConfig.Reset]. *)
Definition Config_Reset (cfg : EncoderConfig) : EncoderConfig :=
  let cfg := mkConfig SPACE_MODE (Logging cfg) (UTCTimestamps cfg)
                      (Round cfg) (Precision cfg) (Pretty cfg) in
  let cfg := mkConfig (Indent cfg) true (UTCTimestamps cfg)
                      (Round cfg) (Precision cfg) (Pretty cfg) in
  let cfg := mkConfig (Indent cfg) (Logging cfg) (UTCTimestamps cfg)
                      true (Precision cfg) (Pretty cfg) in
  let cfg := mkConfig (Indent cfg) (Logging cfg) false
                      (Round cfg) (Precision cfg) (Pretty cfg) in
  mkConfig (Indent cfg) (Logging cfg) (UTCTimestamps cfg)
           (Round cfg) (Precision cfg) false.

(** [Encoder.Reset].  The buffer goes back to [bufPool] when its capacity
    is at most [MAXBUFSIZE]; the pool itself is not part of the state. *)
Definition Reset : M unit :=
  modEnc (set_w false) ;;;
  modEnc (fun e => set_c (Config_Reset (c e)) e) ;;;
  modEnc (set_s false) ;;;
  modEnc (set_d 0) ;;;
  modEnc (set_n 0) ;;;
  modEnc (set_f 0) ;;;
  buf <- theBuffer ;;
  modEnc (set_b (Some (buf_Reset buf))) ;;;
  modEnc (set_b None).

Definition Bytes : M (list byte) :=
  buf <- theBuffer ;; ret (unread buf).

Definition SetConfig (config : EncoderConfig) : M unit :=
  modEnc (set_c config).

Definition Len : M Z :=
  buf <- theBuffer ;; ret (len (unread buf)).

(** ** The pretty-print reformatter *)

(** [indentNewLine]: the bytes written to the scratch buffer at depth [dep]. *)
Definition indentNewLine (cfg : EncoderConfig) (dep : Z) : list byte :=
  let spaces := if negb (Indent cfg =? 0) then 1 else INDENT in
  newLine ::
  repeat (if Indent cfg =? 1 then tab else space)
         (Z.to_nat (wrap64 (dep * spaces))).

(** The reformatter's registers: [enc.d], [enc.s] and the scratch buffer. *)
Record PState := mkPState {
  pd : Z;
  ps : bool;
  pout : list byte
}.

(** The body of the [for] loop of [PrettyPrint] for a byte [ch] that got
    past the [break] test. *)
Definition pp_byte (cfg : EncoderConfig) (ch : byte) (p : PState) : PState :=
  let s1 := if is_byte ch quoteMark then negb (ps p) else ps p in
  if s1 then mkPState (pd p) s1 (pout p ++ [ch])
  else if is_byte ch lBrace || is_byte ch lBracket then
    let d1 := wrap64 (pd p + 1) in
    mkPState d1 s1 ((pout p ++ [ch]) ++ indentNewLine cfg d1)
  else if is_byte ch rBrace || is_byte ch rBracket then
    let d1 := wrap64 (pd p - 1) in
    mkPState d1 s1 ((pout p ++ indentNewLine cfg d1) ++ [ch])
  else if is_byte ch delim then
    mkPState (pd p) s1 ((pout p ++ [ch]) ++ indentNewLine cfg (pd p))
  else if is_byte ch colon then
    mkPState (pd p) s1 ((pout p ++ [ch]) ++ [space])
  else if is_byte ch quoteMark then
    mkPState (pd p) s1 (pout p ++ [ch])
  else
    mkPState (pd p) s1 (pout p ++ [ch]).

(** The [for] loop: [ReadByte] takes the bytes of the encoder buffer one by
    one; the loop stops at the end of the buffer or right after reading a
    zero byte.  The result pairs the bytes left unread with the registers. *)
Fixpoint pp_loop (cfg : EncoderConfig) (bs : list byte) (p : PState)
  : list byte * PState :=
  match bs with
  | [] => ([], p)
  | ch :: rest =>
      if is_byte ch x00 then (rest, p)
      else pp_loop cfg rest (pp_byte cfg ch p)
  end.

Definition PrettyPrint : M unit :=
  buf <- theBuffer ;;
  e <- getEnc ;;
  let '(rest, p) := pp_loop (c e) (unread buf) (mkPState (d e) (s e) []) in
  modEnc (set_b (Some (mkBuffer rest (capacity buf)))) ;;;
  modEnc (set_d (pd p)) ;;;
  modEnc (set_s (ps p)) ;;;
  if 0 <? len (pout p) then
    modEnc (set_b (Some (buf_Write (pout p) (buf_Reset buf))))
  else ret tt.

(** ** Writing to the pipe *)

(** [write]: nothing for an empty buffer or a fired token; otherwise the
    buffer, reformatted first when [Pretty] is set, goes to the pipe; a
    failing [Write] panics; a successful one resets the buffer and bumps
    the counters. *)
Definition write : M unit :=
  buf <- theBuffer ;;
  if len (unread buf) =? 0 then ret tt
  else
    fired <- isDone ;;
    if fired then ret tt
    else
      e <- getEnc ;;
      (if Pretty (c e) then PrettyPrint else ret tt) ;;;
      data <- Bytes ;;
      r <- pipe_Write data ;;
      let '(k, err) := r in
      if err then panic
      else
        buf' <- theBuffer ;;
        modEnc (set_b (Some (buf_Reset buf'))) ;;;
        modEnc (fun e => set_f (wrap64 (f e + 1)) e) ;;;
        modEnc (fun e => set_n (wrap64 (n e + k)) e).

Definition Write : M unit := write.

Definition flush : M unit :=
  k <- Len ;;
  if MAXBUFSIZE <=? k then write else ret tt.

Definition Close : M unit :=
  Write ;;; cancel ;;; pipe_Close.

(** [Release].  [recovered] tells whether [recover()] returned a non-nil
    value, that is whether [Release] runs as a deferred call of a
    panicking function.  The result is [(f, n, cap)]. *)
Definition Release (recovered : bool) : M (Z * Z * Z) :=
  (if recovered then cancel ;;; pipe_Close else ret tt) ;;;
  buf <- theBuffer ;;
  e <- getEnc ;;
  let cap := capacity buf in
  let n0 := n e in
  let f0 := f e in
  Reset ;;;
  ret (f0, n0, cap).

(** [defer enc.Release()] around a function body: [Release] runs when the
    body returns and when it panics; in the second case [recover()] stops
    the panic, and the caller sees a panic only if [Release] itself
    panics. *)
Definition deferRelease (body : M unit) : M (Z * Z * Z) :=
  fun st =>
    match body st with
    | Ok _ st' => Release false st'
    | Panic st' => Release true st'
    end.

(** ** Appending *)

Definition AppendByte (value : byte) : M unit :=
  fired <- isDone ;;
  if fired then ret tt
  else
    buf <- theBuffer ;;
    modEnc (set_b (Some (buf_WriteByte value buf))).

Definition AppendBytes (value : list byte) : M unit :=
  fired <- isDone ;;
  if fired then ret tt
  else
    buf <- theBuffer ;;
    modEnc (set_b (Some (buf_Write value buf))) ;;;
    flush.

Definition EncodeKey (value : list byte) : M unit :=
  AppendByte quoteMark ;;;
  AppendBytes value ;;;
  AppendByte quoteMark.

Definition ObjectKey (value : list byte) : M unit :=
  EncodeKey value ;;;
  AppendByte colon.

Definition ObjectStart : M unit := AppendByte lBrace.
Definition ObjectEnd   : M unit := AppendByte rBrace.
Definition ArrayStart  : M unit := AppendByte lBracket.
Definition ArrayEnd    : M unit := AppendByte rBracket.
Definition Delim       : M unit := AppendByte delim.

(** ** Escaping *)

(** The [switch] of the [range] loop of [Escape], on the scratch buffer. *)
Definition escape_byte (out : list byte) (ch : byte) : list byte :=
  if is_byte ch newLine then out ++ [space]
  else if is_byte ch backslash then (out ++ [backslash]) ++ [backslash]
  else out ++ [ch].

(** [Escape]: the loop runs over [value] from the first byte to the last
    and the contents of the scratch buffer are returned.  (The slice
    returned shares its array with the scratch buffer, which goes back to
    [bufPool]; the model gives the bytes it holds when [Escape] returns.) *)
Definition Escape (value : list byte) : list byte :=
  fold_left escape_byte value [].

(** ** Unsigned integers *)

(** [strconv.AppendUint(dst, value, 10)] on an empty [dst]: the decimal
    digits of [value], most significant first, no sign, no padding. *)
Definition AppendUint (value : N) : list byte :=
  bytes_of (NilEmpty.string_of_uint (N.to_uint value)).







(** ** Timestamps *)

(** What Go's [time] package computes for an instant: the civil date and
    the clock of [abs] seconds since 1970-01-01T00:00:00 in the zone at
    hand (proleptic Gregorian calendar). *)
Record Civil := mkCivil {
  year : Z; month : Z; day : Z; hour : Z; minute : Z; second : Z
}.

(** The year, month and day of the day number [days], counted from
    1970-01-01. *)
Definition dateOfDays (days : Z) : Z * Z * Z :=
  let z := days + 719468 in
  let era := z / 146097 in
  let doe := z mod 146097 in
  let yoe := (doe - doe / 1460 + doe / 36524 - doe / 146096) / 365 in
  let doy := doe - (365 * yoe + yoe / 4 - yoe / 100) in
  let mp := (5 * doy + 2) / 153 in
  let dd := doy - (153 * mp + 2) / 5 + 1 in
  let mm := if mp <? 10 then mp + 3 else mp - 9 in
  let yy := yoe + era * 400 + (if mm <=? 2 then 1 else 0) in
  (yy, mm, dd).

Definition civil (abs : Z) : Civil :=
  let secs := abs mod 86400 in
  let '(yy, mm, dd) := dateOfDays (abs / 86400) in
  mkCivil yy mm dd (secs / 3600) (secs mod 3600 / 60) (secs mod 60).

Definition digit (x : Z) : byte :=
  match Byte.of_N (Z.to_N (48 + x)) with
  | Some ch => ch
  | None => x30
  end.

(** The decimal digits of [u], most significant first, in front of [acc]. *)
Fixpoint udigits (fuel : nat) (u : Z) (acc : list byte) : list byte :=
  match fuel with
  | O => acc
  | S k =>
      let acc' := digit (u mod 10) :: acc in
      if u / 10 =? 0 then acc' else udigits k (u / 10) acc'
  end.

(** [appendInt(b, x, width)] of package [time]: a minus sign for a negative
    [x], then the decimal digits of its magnitude, padded with zeros on the
    left up to [width] digits. *)
Definition appendInt (x width : Z) : list byte :=
  let ds := udigits 20 (Z.abs x) [] in
  (if x <? 0 then [x2d] else []) ++
  repeat x30 (Z.to_nat (width - len ds)) ++ ds.

(** A layout chunk of one byte: [1] is the month and [2] the day, without
    padding; any other byte stands for itself. *)
Definition std1 (t : Civil) (ch : byte) : list byte :=
  if is_byte ch x31 then appendInt (month t) 0
  else if is_byte ch x32 then appendInt (day t) 0
  else [ch].

(** [Time.AppendFormat] on an empty slice, for the layout chunks that begin
    with one of the digits [0], [1] and [2]: [2006], [15], [01] to [06],
    [1] and [2].  Every other byte of the layout is copied.  (Go knows more
    chunks: the day of the year [002], month and weekday names, [3], [4],
    [5], [PM], zones and fractions of a second, which begin with [0], a
    letter, [_], [-], [.] or [,]; neither [ISO8601] nor [ISO8601u] holds
    one, their [-] being followed by [01] and [02] and never by [07].) *)
Fixpoint AppendFormat (t : Civil) (layout : list byte) : list byte :=
  match layout with
  | [] => []
  | c0 :: r0 =>
      match r0 with
      | [] => std1 t c0
      | c1 :: r1 =>
          if is_byte c0 x30 then
            if is_byte c1 x31 then appendInt (month t) 2 ++ AppendFormat t r1
            else if is_byte c1 x32 then appendInt (day t) 2 ++ AppendFormat t r1
            else if is_byte c1 x33 then
              appendInt (if hour t mod 12 =? 0 then 12 else hour t mod 12) 2
              ++ AppendFormat t r1
            else if is_byte c1 x34 then
              appendInt (minute t) 2 ++ AppendFormat t r1
            else if is_byte c1 x35 then
              appendInt (second t) 2 ++ AppendFormat t r1
            else if is_byte c1 x36 then
              appendInt (year t mod 100) 2 ++ AppendFormat t r1
            else c0 :: AppendFormat t r0
          else if is_byte c0 x31 && is_byte c1 x35 then
            appendInt (hour t) 2 ++ AppendFormat t r1
          else
            match r1 with
            | c2 :: c3 :: r3 =>
                if is_byte c0 x32 && is_byte c1 x30 && is_byte c2 x30
                   && is_byte c3 x36
                then appendInt (year t) 4 ++ AppendFormat t r3
                else std1 t c0 ++ AppendFormat t r0
            | _ => std1 t c0 ++ AppendFormat t r0
            end
      end
  end.

(** [time.Unix(int64(value), 0)], then [t.UTC().AppendFormat(_, ISO8601u)]
    or [t.AppendFormat(_, ISO8601)] in the local zone. *)
Definition timestampText (utc : bool) (value : N) : list byte :=
  let sec := Z.of_N value in
  if utc then AppendFormat (civil sec) ISO8601u
  else AppendFormat (civil (sec + localOffset sec)) ISO8601.

Definition WriteUint32Timestamp (key : list byte) (value : N)
  (append_delim : bool) : M unit :=
  e <- getEnc ;;
  let text := timestampText (UTCTimestamps (c e)) value in
  ObjectKey key ;;;
  AppendByte quoteMark ;;;
  AppendBytes text ;;;
  AppendByte quoteMark ;;;
  if append_delim then Delim else ret tt.

End Encoder.

(** ** Rounding of floats *)





(** ** Float keys *)

Section FloatKeys.

Variable grow : Z -> Z -> Z.

(** [strconv.AppendFloat(dst, v, 'f', -1, 64)] on an empty [dst] (Go's
    standard library, outside this repository): the shortest decimal text,
    without exponent, that reads back as [v]. *)
Variable formatFloat : float -> list byte.




End FloatKeys.

(** ** The timeout *)

Definition set_recoveredPanicsCounter (v : Z) (e : Encoder) : Encoder :=
  mkEncoder (b e) (n e) (f e) (d e) (s e) v
            (encoderTimeoutsCounter e) (w e) (c e) (ctx e).
Definition set_encoderTimeoutsCounter (v : Z) (e : Encoder) : Encoder :=
  mkEncoder (b e) (n e) (f e) (d e) (s e) (recoveredPanicsCounter e)
            v (w e) (c e) (ctx e).

(** The goroutine that [WithTimeout] starts waits for the timer or for the
    token, whichever comes first.  When the token comes first it returns
    and changes nothing.  [timerFires] is its other branch, run as one step
    between two operations of the encoder: the timeout counter goes up,
    the token is fired and the writer closed; a panic on the way (a [nil]
    cancel func, a [nil] writer) is recovered by the deferred function of
    the goroutine, which counts it.  The two calls of [Logf] write to the
    process log and are left out. *)
Definition timerFires : M unit :=
  fun st =>
    match (modEnc (fun e => set_encoderTimeoutsCounter
                              (wrap64 (encoderTimeoutsCounter e + 1)) e) ;;;
           cancel ;;;
           pipe_Close) st with
    | Ok _ st' => Ok tt st'
    | Panic st' =>
        Ok tt (mkWorld
                 (set_recoveredPanicsCounter
                    (wrap64 (recoveredPanicsCounter (enc st') + 1)) (enc st'))
                 (pipe st'))
    end.

(** ** Sequences of append operations *)

Inductive Op : Type :=
| OpByte (value : byte)
| OpBytes (value : list byte).

(** The bytes an operation appends. *)
Definition payload (o : Op) : list byte :=
  match o with
  | OpByte value => [value]
  | OpBytes value => value
  end.

Definition perform (grow : Z -> Z -> Z) (o : Op) : M unit :=
  match o with
  | OpByte value => AppendByte grow value
  | OpBytes value => AppendBytes grow value
  end.

Fixpoint run_ops (grow : Z -> Z -> Z) (ops : list Op) : M unit :=
  match ops with
  | [] => ret tt
  | o :: rest => perform grow o ;;; run_ops grow rest
  end.

(** No [AppendBytes] of [ops] brings a buffer that holds [size] bytes to
    the threshold. *)
Fixpoint fits (size : Z) (ops : list Op) : Prop :=
  match ops with
  | [] => True
  | OpByte _ :: rest => fits (size + 1) rest
  | OpBytes value :: rest =>
      size + len value < MAXBUFSIZE /\ fits (size + len value) rest
  end.

(** The append operations of the key writers. *)
Definition keyOps (key : list byte) : list Op :=
  [OpByte quoteMark; OpBytes key; OpByte quoteMark; OpByte colon].



(** ** States reached by the operations *)

(** The world after [value] went into the buffer [buf]. *)
Definition appended (grow : Z -> Z -> Z) (value : list byte) (buf : Buffer)
  (st : World) : World :=
  mkWorld (set_b (Some (buf_Write grow value buf)) (enc st)) (pipe st).

(** The encoder after [PrettyPrint] ran on the buffer [buf]. *)
Definition pretty_enc (grow : Z -> Z -> Z) (e : Encoder) (buf : Buffer)
  : Encoder :=
  let r := pp_loop (c e) (unread buf) (mkPState (d e) (s e) []) in
  let e1 := set_s (ps (snd r))
              (set_d (pd (snd r))
                 (set_b (Some (mkBuffer (fst r) (capacity buf))) e)) in
  if 0 <? len (pout (snd r))
  then set_b (Some (buf_Write grow (pout (snd r)) (buf_Reset buf))) e1
  else e1.

(** The buffer [write] hands to the pipe: reformatted when [Pretty] is set. *)
Definition prepared (grow : Z -> Z -> Z) (st : World) (buf : Buffer)
  : World :=
  if Pretty (c (enc st))
  then mkWorld (pretty_enc grow (enc st) buf) (pipe st)
  else st.

(** The world after the pipe took the buffer [buf] of [st]. *)
Definition sent (st : World) (buf : Buffer) : World :=
  let e := enc st in
  let e1 := set_b (Some (buf_Reset buf)) e in
  let e2 := set_f (wrap64 (f e1 + 1)) e1 in
  let e3 := set_n (wrap64 (n e2 + len (unread buf))) e2 in
  mkWorld e3 (mkPipe (received (pipe st) ++ [unread buf])
                     (rclosed (pipe st)) (wclosed (pipe st))).

(** Whether a [Write] on the pipe returns an error. *)
Definition broken (p : Pipe) : bool := rclosed p || wclosed p.

(** The counters agree with what the pipe has taken: [f] counts the
    chunks and [n] their bytes, as 64-bit integers. *)
Definition counted (st : World) : Prop :=
  f (enc st) = wrap64 (Z.of_nat (List.length (received (pipe st)))) /\
  n (enc st) = wrap64 (len (List.concat (received (pipe st)))).

(** The encoder after [Reset]. *)
Definition reset_enc (e : Encoder) : Encoder :=
  set_b None
    (set_f 0 (set_n 0 (set_d 0 (set_s false
       (set_c (Config_Reset (c e)) (set_w false e)))))).

(** The state an operation ends in, whether it returns or panics. *)
Definition outcome {A : Type} (r : Result A) : World :=
  match r with
  | Ok _ st => st
  | Panic st => st
  end.

(** An encoder between [GetEncoder] on a real writer and [Release]: the
    buffer, the writer and the context are there. *)
Definition attached (st : World) : Prop :=
  (exists buf, b (enc st) = Some buf) /\
  w (enc st) = true /\
  (exists fired, ctx (enc st) = Some fired).

(** The invariant of an acquisition. *)
Definition sound (st : World) : Prop := attached st /\ counted st.

(** ** Sample states *)

(** A reallocation policy to run the definitions with: twice the old
    capacity plus the bytes needed. *)
Definition grow2 (cap need : Z) : Z := 2 * cap + need.

Definition openPipe : Pipe := mkPipe [] false false.

(** An encoder fresh from [GetEncoder] on an open pipe, with [pending]
    written to its buffer. *)
Definition acquired (pending : list byte) : World :=
  let e := GetEncoder grow2 true (mkBuffer [] 0) in
  mkWorld
    (set_b (option_map (buf_Write grow2 pending) (b e)) e)
    openPipe.

(** The same with a fired cancellation token. *)
Definition cancelled (pending : list byte) : World :=
  mkWorld (set_ctx (Some true) (enc (acquired pending))) openPipe.

(** The same with the reading end of the pipe closed. *)
Definition readerGone (pending : list byte) : World :=
  mkWorld (enc (acquired pending)) (mkPipe [] true false).

(** The bytes of an object with one key: a brace, the quoted key [k], a
    colon, the array [[1,2]] and the closing brace. *)
Definition sampleJSON : list byte :=
  [lBrace; quoteMark] ++ bytes_of "k" ++ [quoteMark; colon] ++
  bytes_of "[1,2]" ++ [rBrace].

(** A quoted string with a zero byte in the middle: a quote, [a], the zero
    byte, [b], a quote. *)
Definition zeroInString : list byte := [quoteMark; x61; x00; x62; quoteMark].

(** Three operations that append an object with an empty key list. *)
Definition sampleOps : list Op :=
  [OpByte lBrace; OpBytes (bytes_of "k"); OpByte rBrace].

(** A buffer one byte short of the threshold. *)
Definition almostFull : list byte := repeat x61 4095.

(** A function body that appends [sampleOps] and then calls [Write]. *)
Definition sampleBody : M unit := run_ops grow2 sampleOps ;;; Write grow2.

(** The state in which [sampleBody] stops when the reader is gone. *)
Definition panicState : World := outcome (sampleBody (readerGone [])).


(** The zone of the machine the tests of the repository were written on:
    one hour east of UTC. *)
Definition oneHourEast (sec : Z) : Z := 3600.


(** ** Descriptions to compare the code with *)

(** The output format of the key writers: the key in quote marks, a
    colon, the text of the value, and a comma when a delimiter is asked
    for. *)
Definition keyed (key text : list byte) (dlm : bool) : list byte :=
  [quoteMark] ++ key ++ [quoteMark; colon] ++ text ++
  (if dlm then [delim] else []).

(** A text wrapped in quote marks. *)
Definition quoted (text : list byte) : list byte :=
  [quoteMark] ++ text ++ [quoteMark].

(** Two and four decimal digits. *)
Definition two (x : Z) : list byte := [digit (x / 10); digit (x mod 10)].

Definition four (x : Z) : list byte :=
  [digit (x / 1000); digit (x / 100 mod 10); digit (x / 10 mod 10);
   digit (x mod 10)].

(** The pattern YYYY-MM-DDTHH:MM:SS filled with a civil time. *)
Definition isoText (t : Civil) : list byte :=
  four (year t) ++ [x2d] ++ two (month t) ++ [x2d] ++ two (day t) ++
  [x54] ++ two (hour t) ++ [x3a] ++ two (minute t) ++ [x3a] ++
  two (second t).

(** The fields of a civil time fit the digits of the pattern. *)
Definition in_range (t : Civil) : Prop :=
  0 <= year t <= 9999 /\ 1 <= month t <= 12 /\ 1 <= day t <= 31 /\
  0 <= hour t <= 23 /\ 0 <= minute t <= 59 /\ 0 <= second t <= 59.

(** The date of a day number is one of the pattern: checked by running
    [dateOfDays]. *)
Definition date_ok (days : Z) : bool :=
  let '(yy, mm, dd) := dateOfDays days in
  (0 <=? yy) && (yy <=? 9999) && (1 <=? mm) && (mm <=? 12) &&
  (1 <=? dd) && (dd <=? 31).

(** [P] holds of [count] consecutive integers from [start] on. *)
Fixpoint all_from (P : Z -> bool) (start : Z) (count : nat) : bool :=
  match count with
  | O => true
  | S k => P start && all_from P (start + 1) k
  end.



(** The loop body applied to the bytes of a slice, first to last. *)
Definition pp_run (cfg : EncoderConfig) (bs : list byte) (p : PState)
  : PState :=
  fold_left (fun q ch => pp_byte cfg ch q) bs p.

Definition nonzero (ch : byte) : Prop := ch <> x00.

(** Neither a bracket, a brace, a comma nor a colon. *)
Definition plain (ch : byte) : Prop :=
  ch <> lBrace /\ ch <> lBracket /\ ch <> rBrace /\ ch <> rBracket /\
  ch <> delim /\ ch <> colon.

(** What a closing brace or bracket would do if the indent came first, at
    the depth before the decrement. *)
Definition close_indent_first (cfg : EncoderConfig) (ch : byte) (p : PState)
  : PState :=
  mkPState (wrap64 (pd p - 1)) (ps p)
           ((pout p ++ indentNewLine cfg (pd p)) ++ [ch]).

(** ** The stream of an encoder *)

(** The bytes waiting in the encoder buffer ([nil] holds none). *)
Definition pending (st : World) : list byte :=
  match b (enc st) with
  | Some buf => unread buf
  | None => []
  end.

(** Everything the encoder has taken so far, in order: the chunks the pipe
    received, then the bytes still in the buffer. *)
Definition stream (st : World) : list byte :=
  List.concat (received (pipe st)) ++ pending st.

(** An encoder that can append and write: a buffer, a token that has not
    fired, a writer and a pipe with both ends open. *)
Definition live (st : World) : Prop :=
  (exists buf, b (enc st) = Some buf) /\
  ctx (enc st) = Some false /\
  w (enc st) = true /\
  broken (pipe st) = false.

(** A chunk as large as the flush threshold. *)
Definition full (chunk : list byte) : Prop := MAXBUFSIZE <= len chunk.

(** The reformatter's registers and output once the pending bytes have gone
    through it as well, the output so far being what the pipe received. *)
Definition formatted (st : World) : PState :=
  pp_run (c (enc st)) (pending st)
    (mkPState (d (enc st)) (s (enc st)) (List.concat (received (pipe st)))).

(** An acquired encoder with [Pretty] switched on by [SetConfig]. *)
Definition prettyAcquired (bytes : list byte) : World :=
  mkWorld
    (set_c (mkConfig SPACE_MODE true false true PRECISION true)
       (enc (acquired bytes)))
    openPipe.

(** The opening of an object whose key [k] holds an array: a brace, the
    key, a colon and a bracket, in two operations. *)
Definition openingOps : list Op :=
  [OpByte lBrace; OpBytes ([quoteMark] ++ bytes_of "k" ++ [quoteMark; colon]);
   OpByte lBracket].

(** ** Words for the reformatter's output *)

(** The bytes the reformatter inserts: newline, space and tab. *)
Definition is_ws (ch : byte) : bool :=
  is_byte ch newLine || is_byte ch space || is_byte ch tab.

(** A slice without its newline, space and tab bytes. *)
Definition strip (bs : list byte) : list byte :=
  filter (fun ch => negb (is_ws ch)) bs.

(** The number of quote marks in a slice. *)
Definition quotes (bs : list byte) : nat :=
  count_occ Byte.byte_eq_dec bs quoteMark.

(** The world after [cancel] and [w.Close()]: the token fired and the
    writing end closed. *)
Definition shut (st : World) : World :=
  mkWorld (set_ctx (Some true) (enc st))
          (mkPipe (received (pipe st)) (rclosed (pipe st)) true).



(** ** Words for texts *)






(** ** Reading a civil time back *)

(** The day number, counted from 1970-01-01, of a date of the proleptic
    Gregorian calendar. *)
Definition daysOf (yy mm dd : Z) : Z :=
  let y1 := if mm <=? 2 then yy - 1 else yy in
  let era := y1 / 400 in
  let yoe := y1 - era * 400 in
  let doy := (153 * (if 2 <? mm then mm - 3 else mm + 9) + 2) / 5 + dd - 1 in
  let doe := yoe * 365 + yoe / 4 - yoe / 100 + doy in
  era * 146097 + doe - 719468.

(** The seconds since 1970-01-01T00:00:00 of a civil time. *)
Definition unixOf (t : Civil) : Z :=
  daysOf (year t) (month t) (day t) * 86400 +
  hour t * 3600 + minute t * 60 + second t.

(** The date of a day number gives the day number back: checked by
    running both. *)
Definition date_back (days : Z) : bool :=
  let '(yy, mm, dd) := dateOfDays days in daysOf yy mm dd =? days.

(** The value of a decimal digit. *)
Definition digitValue (ch : byte) : Z := Z.of_N (Byte.to_N ch) - 48.

(** A zone that goes from two hours east of UTC to one hour east at
    2021-10-31T01:00:00 UTC, the end of summer time in central Europe. *)
Definition fallBack (sec : Z) : Z :=
  if sec <? 1635642000 then 7200 else 3600.

(** ** Proof steps *)

(** Unfolds one layer of the monad. *)
Ltac step :=
  cbv beta iota delta
    [bind theBuffer isDone getEnc getPipe putPipe modEnc ret panic].

(** Destructs the results of the appends of a goal, first to last. *)
Ltac by_results :=
  repeat match goal with
         | |- context [AppendByte ?g ?v ?x] =>
             destruct (AppendByte g v x) as [[] ?|?]
         | |- context [AppendBytes ?g ?v ?x] =>
             destruct (AppendBytes g v x) as [[] ?|?]
         end;
  try reflexivity.

(** * Properties *)

(** ** Bytes *)

Lemma is_byte_refl (x : byte) : is_byte x x = true.
Proof. apply Byte.byte_dec_lb. reflexivity. Qed.

Lemma is_byte_neq (x y : byte) : x <> y -> is_byte x y = false.
Proof.
  intros Hxy. unfold is_byte.
  destruct (Byte.eqb x y) eqn:E; [|reflexivity].
  apply Byte.byte_dec_bl in E. contradiction.
Qed.

Lemma is_byte_true (x y : byte) : is_byte x y = true -> x = y.
Proof. apply Byte.byte_dec_bl. Qed.

Lemma len_app (l1 l2 : list byte) : len (l1 ++ l2) = len l1 + len l2.
Proof. unfold len. rewrite length_app. lia. Qed.

Lemma len_nonneg (l : list byte) : 0 <= len l.
Proof. unfold len. lia. Qed.

Lemma len_cons (x : byte) (l : list byte) : len (x :: l) = 1 + len l.
Proof. unfold len. cbn [List.length]. lia. Qed.

(** ** Escape *)




Example Escape_backslash :
  Escape (bytes_of "/\") = bytes_of "/\\".
Proof. reflexivity. Qed.

Example Escape_newline : Escape [newLine] = bytes_of " ".
Proof. reflexivity. Qed.

Example Escape_keeps_quotes :
  Escape [quoteMark; x00; xff; tab] = [quoteMark; x00; xff; tab].
Proof. reflexivity. Qed.

(** ** EncoderConfig.Reset *)

(** C9.  [Reset] assigns five of the six fields of the configuration and
    leaves [Precision] as it was: the result is the default set of
    [NewEncoder] only when the precision was [PRECISION] before. *)
Theorem Config_Reset_keeps_Precision :
  (forall cfg,
     Config_Reset cfg =
     mkConfig SPACE_MODE true false true (Precision cfg) false) /\
  Config_Reset (mkConfig TAB_MODE false true false 3 true)
  = mkConfig SPACE_MODE true false true 3 false /\
  Config_Reset (mkConfig TAB_MODE false true false 3 true) <> c NewEncoder.
Proof.
  split; [intros cfg; reflexivity|]. split; [reflexivity|].
  cbn. intros H. discriminate H.
Qed.

(** ** The pretty-print reformatter *)

Lemma pp_loop_nonzero (cfg : EncoderConfig) (bs : list byte) :
  Forall nonzero bs ->
  forall p, pp_loop cfg bs p = ([], pp_run cfg bs p).
Proof.
  induction 1 as [|ch bs Hch _ IH]; intros p; cbn.
  - reflexivity.
  - rewrite (is_byte_neq _ _ Hch). apply IH.
Qed.

Lemma pp_loop_stops (cfg : EncoderConfig) (pre post : list byte) :
  Forall nonzero pre ->
  forall p, pp_loop cfg (pre ++ x00 :: post) p = (post, pp_run cfg pre p).
Proof.
  induction 1 as [|ch bs Hch _ IH]; intros p; cbn.
  - reflexivity.
  - rewrite (is_byte_neq _ _ Hch). apply IH.
Qed.

Lemma pp_byte_in_string (cfg : EncoderConfig) (ch : byte) (dep : Z)
  (out : list byte) :
  pp_byte cfg ch (mkPState dep true out) =
  mkPState dep (negb (is_byte ch quoteMark)) (out ++ [ch]).
Proof.
  unfold pp_byte. cbn [ps pd pout].
  destruct (is_byte ch quoteMark) eqn:E; cbn [negb]; [|reflexivity].
  apply is_byte_true in E. subst ch. reflexivity.
Qed.

Lemma pp_byte_plain (cfg : EncoderConfig) (ch : byte) (dep : Z)
  (out : list byte) :
  plain ch ->
  pp_byte cfg ch (mkPState dep false out) =
  mkPState dep (is_byte ch quoteMark) (out ++ [ch]).
Proof.
  intros (H1 & H2 & H3 & H4 & H5 & H6).
  unfold pp_byte. cbn [ps pd pout].
  destruct (is_byte ch quoteMark) eqn:E; cbn [negb]; [reflexivity|].
  rewrite (is_byte_neq _ _ H1), (is_byte_neq _ _ H2), (is_byte_neq _ _ H3),
    (is_byte_neq _ _ H4), (is_byte_neq _ _ H5), (is_byte_neq _ _ H6).
  reflexivity.
Qed.

(** Every byte that passes the loop body adds at least itself to the
    scratch buffer. *)
Lemma pp_byte_grows (cfg : EncoderConfig) (ch : byte) (p : PState) :
  len (pout p) < len (pout (pp_byte cfg ch p)).
Proof.
  unfold pp_byte.
  repeat match goal with
         | |- context [if ?x then _ else _] => destruct x
         end;
    cbn [pout]; rewrite ?len_app;
    repeat match goal with
           | |- context [len (indentNewLine ?a ?b)] =>
               pose proof (len_nonneg (indentNewLine a b));
               generalize dependent (len (indentNewLine a b)); intros
           end;
    change (len [ch]) with 1; change (len [space]) with 1; lia.
Qed.

Lemma pp_run_grows (cfg : EncoderConfig) (bs : list byte) :
  forall p, len (pout p) + len bs <= len (pout (pp_run cfg bs p)).
Proof.
  induction bs as [|ch bs IH]; intros p.
  - change (pp_run cfg [] p) with p. change (len []) with 0. lia.
  - change (pp_run cfg (ch :: bs) p) with (pp_run cfg bs (pp_byte cfg ch p)).
    specialize (IH (pp_byte cfg ch p)).
    pose proof (pp_byte_grows cfg ch p). rewrite len_cons. lia.
Qed.

(** [PrettyPrint] on an encoder with a buffer, in one step. *)
Lemma PrettyPrint_eq (grow : Z -> Z -> Z) (st : World) (buf : Buffer) :
  b (enc st) = Some buf ->
  PrettyPrint grow st =
  Ok tt (mkWorld (pretty_enc grow (enc st) buf) (pipe st)).
Proof.
  intros Hb.
  unfold PrettyPrint, theBuffer, bind, getEnc, ret, pretty_enc.
  cbn beta iota zeta.
  rewrite Hb. cbn beta iota.
  destruct (pp_loop _ _ _) as [rest p]. cbn [fst snd].
  unfold modEnc. cbn [enc pipe].
  destruct (0 <? len (pout p)); reflexivity.
Qed.

(** C3.  Outside a string a closing brace or bracket first decrements the
    depth, then writes a newline and the indent of the decremented depth,
    then the byte itself; an opening brace or bracket increments the depth,
    writes the byte, then a newline and the indent of the incremented
    depth.  The last two parts show it on [PrettyPrint] itself, run on a
    buffer that holds one closing brace or one opening brace. *)
Theorem pp_byte_brackets (grow : Z -> Z -> Z) (e : Encoder) (p : Pipe)
  (dep cap : Z) (out : list byte) :
  let cfg := c e in
  let holding ch :=
    mkWorld (set_s false
               (set_d dep (set_b (Some (mkBuffer [ch] cap)) e))) p in
  pp_byte cfg rBrace (mkPState dep false out) =
    mkPState (wrap64 (dep - 1)) false
             ((out ++ indentNewLine cfg (wrap64 (dep - 1))) ++ [rBrace]) /\
  pp_byte cfg rBracket (mkPState dep false out) =
    mkPState (wrap64 (dep - 1)) false
             ((out ++ indentNewLine cfg (wrap64 (dep - 1))) ++ [rBracket]) /\
  pp_byte cfg lBrace (mkPState dep false out) =
    mkPState (wrap64 (dep + 1)) false
             ((out ++ [lBrace]) ++ indentNewLine cfg (wrap64 (dep + 1))) /\
  pp_byte cfg lBracket (mkPState dep false out) =
    mkPState (wrap64 (dep + 1)) false
             ((out ++ [lBracket]) ++ indentNewLine cfg (wrap64 (dep + 1))) /\
  (exists st',
     PrettyPrint grow (holding rBrace) = Ok tt st' /\
     Bytes st' = Ok (indentNewLine cfg (wrap64 (dep - 1)) ++ [rBrace]) st' /\
     d (enc st') = wrap64 (dep - 1)) /\
  (exists st',
     PrettyPrint grow (holding lBrace) = Ok tt st' /\
     Bytes st' = Ok (lBrace :: indentNewLine cfg (wrap64 (dep + 1))) st' /\
     d (enc st') = wrap64 (dep + 1)).
Proof.
  intros cfg holding.
  do 4 (split; [reflexivity|]).
  split.
  - exists (mkWorld (pretty_enc grow (enc (holding rBrace))
                                (mkBuffer [rBrace] cap)) p).
    split; [apply (PrettyPrint_eq grow (holding rBrace)); reflexivity|].
    split; reflexivity.
  - exists (mkWorld (pretty_enc grow (enc (holding lBrace))
                                (mkBuffer [lBrace] cap)) p).
    split; [apply (PrettyPrint_eq grow (holding lBrace)); reflexivity|].
    split; reflexivity.
Qed.

(** At depth 1 with the default configuration a closing brace is written
    after a bare newline, the indent of depth 0; with the indent taken
    before the decrement it would follow four spaces. *)
Lemma pp_byte_close_not_indent_first :
  pp_byte (c NewEncoder) rBrace (mkPState 1 false []) =
    mkPState 0 false [newLine; rBrace] /\
  close_indent_first (c NewEncoder) rBrace (mkPState 1 false []) =
    mkPState 0 false [newLine; space; space; space; space; rBrace] /\
  pp_byte (c NewEncoder) rBrace (mkPState 1 false []) <>
    close_indent_first (c NewEncoder) rBrace (mkPState 1 false []).
Proof.
  split; [reflexivity|]. split; [reflexivity|].
  intros H. discriminate H.
Qed.

(** The [empty array] case of [TestEncoderPrettyPrint]. *)
Example pp_empty_array :
  pp_loop (c NewEncoder)
    ([lBrace; quoteMark] ++ bytes_of "keys" ++
     [quoteMark; colon; lBracket; rBracket; rBrace])
    (mkPState 0 false []) =
  ([], mkPState 0 false
         ([lBrace; newLine] ++ repeat space 4 ++ [quoteMark] ++
          bytes_of "keys" ++ [quoteMark; colon; space; lBracket; newLine] ++
          repeat space 8 ++ [newLine] ++ repeat space 4 ++
          [rBracket; newLine; rBrace])).
Proof. reflexivity. Qed.

(** C10.  On a buffer that holds no zero byte the pass reads every byte:
    nothing is left unread and the registers are those of the loop body
    run over the whole buffer; afterwards the encoder buffer holds the
    output.  A byte read inside a string is copied as it is, and so is,
    outside a string, a byte that is no brace, bracket, comma or colon.  A
    zero byte ends the pass where it stands: the bytes after it are left
    unread. *)
Theorem PrettyPrint_reads_all_but_zero (grow : Z -> Z -> Z) (st : World)
  (buf : Buffer) :
  b (enc st) = Some buf ->
  Forall nonzero (unread buf) ->
  let cfg := c (enc st) in
  let p0 := mkPState (d (enc st)) (s (enc st)) [] in
  pp_loop cfg (unread buf) p0 = ([], pp_run cfg (unread buf) p0) /\
  (exists st',
     PrettyPrint grow st = Ok tt st' /\
     Bytes st' = Ok (pout (pp_run cfg (unread buf) p0)) st' /\
     d (enc st') = pd (pp_run cfg (unread buf) p0) /\
     s (enc st') = ps (pp_run cfg (unread buf) p0) /\
     pipe st' = pipe st) /\
  (forall ch dep out,
     pp_byte cfg ch (mkPState dep true out) =
     mkPState dep (negb (is_byte ch quoteMark)) (out ++ [ch])) /\
  (forall ch dep out,
     plain ch ->
     pp_byte cfg ch (mkPState dep false out) =
     mkPState dep (is_byte ch quoteMark) (out ++ [ch])) /\
  (forall post p,
     pp_loop cfg (unread buf ++ x00 :: post) p =
     (post, pp_run cfg (unread buf) p)).
Proof.
  intros Hb Hnz cfg p0.
  pose proof (pp_loop_nonzero cfg (unread buf) Hnz p0) as Hloop.
  split; [exact Hloop|]. split; [|split; [|split]].
  - rewrite (PrettyPrint_eq grow st buf Hb). unfold pretty_enc.
    cbn zeta. fold cfg p0. rewrite Hloop. cbn [fst snd].
    pose proof (pp_run_grows cfg (unread buf) p0) as Hg.
    change (len (pout p0)) with 0 in Hg.
    destruct (0 <? len (pout (pp_run cfg (unread buf) p0))) eqn:E.
    + eexists. split; [reflexivity|]. cbn.
      unfold Bytes, bind, theBuffer, getEnc, ret. cbn. auto.
    + apply Z.ltb_ge in E.
      assert (Hz : len (unread buf) = 0) by (pose proof (len_nonneg (unread buf)); lia).
      assert (Hout : len (pout (pp_run cfg (unread buf) p0)) = 0)
        by (pose proof (len_nonneg (pout (pp_run cfg (unread buf) p0))); lia).
      destruct (unread buf) as [|x l]; [|rewrite len_cons in Hz; pose proof (len_nonneg l); lia].
      eexists. split; [reflexivity|]. cbn.
      unfold Bytes, bind, theBuffer, getEnc, ret. cbn. auto.
  - intros ch dep out. apply pp_byte_in_string.
  - intros ch dep out Hp. apply pp_byte_plain. exact Hp.
  - intros post p. apply pp_loop_stops. exact Hnz.
Qed.

Lemma sampleJSON_nonzero : Forall nonzero sampleJSON.
Proof. repeat constructor; intros H; discriminate H. Defined.

Lemma PrettyPrint_reads_all_but_zero_witness :
  b (enc (acquired sampleJSON)) = Some (mkBuffer sampleJSON 4096) /\
  Forall nonzero sampleJSON /\
  pp_loop (c NewEncoder) sampleJSON (mkPState 0 false []) =
  ([], pp_run (c NewEncoder) sampleJSON (mkPState 0 false [])).
Proof.
  split; [reflexivity|]. split; [exact sampleJSON_nonzero|].
  exact (proj1 (PrettyPrint_reads_all_but_zero grow2 (acquired sampleJSON)
                  (mkBuffer sampleJSON 4096) eq_refl sampleJSON_nonzero)).
Defined.

(** A zero byte inside a string ends the pass: [b] and the closing quote
    are left unread, the in-string flag stays set, and the encoder buffer
    ends up with the two bytes written before the zero byte. *)
Lemma PrettyPrint_stops_at_zero_byte :
  pp_loop (c NewEncoder) zeroInString (mkPState 0 false []) =
    ([x62; quoteMark], mkPState 0 true [quoteMark; x61]) /\
  exists st',
    PrettyPrint grow2 (acquired zeroInString) = Ok tt st' /\
    Bytes st' = Ok [quoteMark; x61] st' /\
    s (enc st') = true.
Proof.
  split; [reflexivity|].
  eexists. split; [reflexivity|]. split; reflexivity.
Qed.

(** ** Appending and writing *)

Lemma AppendByte_done (grow : Z -> Z -> Z) (v : byte) (st : World) :
  ctx (enc st) = Some true -> AppendByte grow v st = Ok tt st.
Proof. intros H. unfold AppendByte. step. rewrite H. reflexivity. Qed.

Lemma AppendBytes_done (grow : Z -> Z -> Z) (v : list byte) (st : World) :
  ctx (enc st) = Some true -> AppendBytes grow v st = Ok tt st.
Proof. intros H. unfold AppendBytes. step. rewrite H. reflexivity. Qed.

Lemma write_done (grow : Z -> Z -> Z) (st : World) (buf : Buffer) :
  b (enc st) = Some buf -> ctx (enc st) = Some true ->
  write grow st = Ok tt st.
Proof.
  intros Hb H. unfold write. step. rewrite Hb. cbn beta iota.
  destruct (len (unread buf) =? 0); [reflexivity|].
  rewrite H. reflexivity.
Qed.

Lemma write_empty (grow : Z -> Z -> Z) (st : World) (buf : Buffer) :
  b (enc st) = Some buf -> unread buf = [] -> write grow st = Ok tt st.
Proof.
  intros Hb H. unfold write. step. rewrite Hb, H. reflexivity.
Qed.

Lemma flush_done (grow : Z -> Z -> Z) (st : World) (buf : Buffer) :
  b (enc st) = Some buf -> ctx (enc st) = Some true ->
  flush grow st = Ok tt st.
Proof.
  intros Hb H. unfold flush, Len. step. rewrite Hb. cbn beta iota.
  destruct (MAXBUFSIZE <=? len (unread buf)); [|reflexivity].
  apply (write_done grow st buf Hb H).
Qed.

Lemma flush_below (grow : Z -> Z -> Z) (st : World) (buf : Buffer) :
  b (enc st) = Some buf -> len (unread buf) < MAXBUFSIZE ->
  flush grow st = Ok tt st.
Proof.
  intros Hb H. unfold flush, Len. step. rewrite Hb. cbn beta iota.
  destruct (MAXBUFSIZE <=? len (unread buf)) eqn:E; [|reflexivity].
  apply Z.leb_le in E. lia.
Qed.

Lemma flush_full (grow : Z -> Z -> Z) (st : World) (buf : Buffer) :
  b (enc st) = Some buf -> MAXBUFSIZE <= len (unread buf) ->
  flush grow st = write grow st.
Proof.
  intros Hb H. unfold flush, Len. step. rewrite Hb. cbn beta iota.
  destruct (MAXBUFSIZE <=? len (unread buf)) eqn:E; [reflexivity|].
  apply Z.leb_gt in E. lia.
Qed.

Lemma AppendByte_open (grow : Z -> Z -> Z) (v : byte) (st : World)
  (buf : Buffer) :
  b (enc st) = Some buf -> ctx (enc st) = Some false ->
  AppendByte grow v st = Ok tt (appended grow [v] buf st).
Proof.
  intros Hb H. unfold AppendByte. step. rewrite H. cbn beta iota.
  rewrite Hb. reflexivity.
Qed.

Lemma AppendBytes_open (grow : Z -> Z -> Z) (v : list byte) (st : World)
  (buf : Buffer) :
  b (enc st) = Some buf -> ctx (enc st) = Some false ->
  AppendBytes grow v st = flush grow (appended grow v buf st).
Proof.
  intros Hb H. unfold AppendBytes. step. rewrite H. cbn beta iota.
  rewrite Hb. reflexivity.
Qed.

Lemma AppendBytes_below (grow : Z -> Z -> Z) (v : list byte) (st : World)
  (buf : Buffer) :
  b (enc st) = Some buf -> ctx (enc st) = Some false ->
  len (unread buf) + len v < MAXBUFSIZE ->
  AppendBytes grow v st = Ok tt (appended grow v buf st).
Proof.
  intros Hb H Hlen. rewrite (AppendBytes_open grow v st buf Hb H).
  apply (flush_below grow _ (buf_Write grow v buf)); [reflexivity|].
  cbn [buf_Write unread]. rewrite len_app. exact Hlen.
Qed.

Lemma AppendBytes_full (grow : Z -> Z -> Z) (v : list byte) (st : World)
  (buf : Buffer) :
  b (enc st) = Some buf -> ctx (enc st) = Some false ->
  MAXBUFSIZE <= len (unread buf) + len v ->
  AppendBytes grow v st = write grow (appended grow v buf st).
Proof.
  intros Hb H Hlen. rewrite (AppendBytes_open grow v st buf Hb H).
  apply (flush_full grow _ (buf_Write grow v buf)); [reflexivity|].
  cbn [buf_Write unread]. rewrite len_app. exact Hlen.
Qed.

(** C2.  Once the cancellation token has fired, [AppendByte],
    [AppendBytes], [flush], [write] and [Write] return at once and leave
    the whole state as it was: the buffer, both counters and the pipe. *)
Theorem cancelled_is_noop (grow : Z -> Z -> Z) (st : World) (buf : Buffer)
  (v : byte) (vs : list byte) :
  ctx (enc st) = Some true ->
  b (enc st) = Some buf ->
  AppendByte grow v st = Ok tt st /\
  AppendBytes grow vs st = Ok tt st /\
  flush grow st = Ok tt st /\
  write grow st = Ok tt st /\
  Write grow st = Ok tt st.
Proof.
  intros Hctx Hb. repeat split.
  - apply AppendByte_done, Hctx.
  - apply AppendBytes_done, Hctx.
  - apply (flush_done grow st buf Hb Hctx).
  - apply (write_done grow st buf Hb Hctx).
  - apply (write_done grow st buf Hb Hctx).
Qed.

Lemma cancelled_is_noop_witness :
  ctx (enc (cancelled sampleJSON)) = Some true /\
  b (enc (cancelled sampleJSON)) = Some (mkBuffer sampleJSON 4096) /\
  AppendByte grow2 x61 (cancelled sampleJSON) = Ok tt (cancelled sampleJSON) /\
  write grow2 (cancelled sampleJSON) = Ok tt (cancelled sampleJSON).
Proof.
  split; [reflexivity|]. split; [reflexivity|].
  pose proof (cancelled_is_noop grow2 (cancelled sampleJSON)
                (mkBuffer sampleJSON 4096) x61 [x61] eq_refl eq_refl) as H.
  split; [exact (proj1 H)|exact (proj1 (proj2 (proj2 (proj2 H))))].
Defined.

(** ** What [write] does on an open encoder *)

Lemma pretty_enc_keeps (grow : Z -> Z -> Z) (e : Encoder) (buf : Buffer) :
  f (pretty_enc grow e buf) = f e /\
  n (pretty_enc grow e buf) = n e /\
  w (pretty_enc grow e buf) = w e /\
  c (pretty_enc grow e buf) = c e /\
  ctx (pretty_enc grow e buf) = ctx e /\
  exists buf', b (pretty_enc grow e buf) = Some buf'.
Proof.
  unfold pretty_enc. cbn zeta.
  destruct (0 <? len _); cbn; repeat split; eauto.
Qed.

Lemma prepared_keeps (grow : Z -> Z -> Z) (st : World) (buf : Buffer) :
  b (enc st) = Some buf ->
  f (enc (prepared grow st buf)) = f (enc st) /\
  n (enc (prepared grow st buf)) = n (enc st) /\
  w (enc (prepared grow st buf)) = w (enc st) /\
  c (enc (prepared grow st buf)) = c (enc st) /\
  ctx (enc (prepared grow st buf)) = ctx (enc st) /\
  pipe (prepared grow st buf) = pipe st /\
  exists buf', b (enc (prepared grow st buf)) = Some buf'.
Proof.
  intros Hb. unfold prepared. destruct (Pretty (c (enc st))).
  - cbn [enc pipe].
    destruct (pretty_enc_keeps grow (enc st) buf) as (H1 & H2 & H3 & H4 & H5 & H6).
    repeat split; assumption.
  - repeat split; eauto.
Qed.

(** [write] on a buffer that is not empty, with the token not fired and a
    writer attached: the prepared buffer goes to the pipe; a broken pipe
    makes [write] panic in the prepared state, an open one takes the
    buffer. *)
Lemma write_open (grow : Z -> Z -> Z) (st : World) (buf buf1 : Buffer) :
  b (enc st) = Some buf ->
  unread buf <> [] ->
  ctx (enc st) = Some false ->
  w (enc st) = true ->
  b (enc (prepared grow st buf)) = Some buf1 ->
  write grow st =
  if broken (pipe st) then Panic (prepared grow st buf)
  else Ok tt (sent (prepared grow st buf) buf1).
Proof.
  intros Hb Hne Hctx Hw Hb1.
  destruct (prepared_keeps grow st buf Hb) as (_ & _ & Hw1 & _ & _ & Hp & _).
  assert (Hlen : (len (unread buf) =? 0) = false).
  { apply Z.eqb_neq. destruct (unread buf); [contradiction|].
    rewrite len_cons. pose proof (len_nonneg l). lia. }
  unfold write. step. rewrite Hb. cbn beta iota. rewrite Hlen, Hctx.
  cbn beta iota.
  unfold prepared in *.
  destruct (Pretty (c (enc st)));
    [rewrite (PrettyPrint_eq grow st buf Hb)|];
    unfold Bytes, pipe_Write; step; cbn [enc pipe] in *;
    rewrite Hb1; cbn beta iota; cbn [enc pipe]; rewrite ?Hw1, Hw;
    cbn beta iota; cbn [enc pipe];
    unfold broken; destruct (rclosed (pipe st) || wclosed (pipe st));
    cbn beta iota; cbn [enc pipe]; rewrite ?Hb1; reflexivity.
Qed.

(** ** Buffering below the threshold *)

Lemma run_ops_fits (grow : Z -> Z -> Z) (ops : list Op) :
  forall (st : World) (buf : Buffer),
    b (enc st) = Some buf ->
    ctx (enc st) = Some false ->
    fits (len (unread buf)) ops ->
    exists buf',
      run_ops grow ops st =
        Ok tt (mkWorld (set_b (Some buf') (enc st)) (pipe st)) /\
      unread buf' = unread buf ++ flat_map payload ops.
Proof.
  induction ops as [|o ops IH]; intros st buf Hb Hctx Hfit.
  - exists buf. split.
    + destruct st as [e p]. cbn in Hb |- *. unfold ret.
      destruct e; cbn in Hb |- *. subst. reflexivity.
    + cbn. rewrite app_nil_r. reflexivity.
  - assert (Hstep : perform grow o st = Ok tt (appended grow (payload o) buf st)
                    /\ fits (len (unread buf) + len (payload o)) ops).
    { destruct o as [v|v]; cbn [perform payload fits] in *.
      - split; [apply AppendByte_open; assumption|exact Hfit].
      - destruct Hfit as [Hlt Hfit].
        split; [apply AppendBytes_below; assumption|exact Hfit]. }
    destruct Hstep as [Hstep Hrest].
    destruct (IH (appended grow (payload o) buf st)
                 (buf_Write grow (payload o) buf)) as (buf' & Hrun & Hun).
    + reflexivity.
    + exact Hctx.
    + cbn [buf_Write unread]. rewrite len_app. exact Hrest.
    + exists buf'. split.
      * cbn [run_ops]. unfold bind. rewrite Hstep, Hrun. reflexivity.
      * rewrite Hun. cbn [buf_Write unread flat_map].
        rewrite <- app_assoc. reflexivity.
Qed.

Lemma below_fits (ops : list Op) :
  forall size,
    0 <= size -> size + len (flat_map payload ops) < MAXBUFSIZE ->
    fits size ops.
Proof.
  induction ops as [|o ops IH]; intros size H0 Hlen; [exact I|].
  cbn [flat_map] in Hlen. rewrite len_app in Hlen.
  pose proof (len_nonneg (flat_map payload ops)) as Hnn.
  pose proof (len_nonneg (payload o)) as Hno.
  destruct o as [v|v]; cbn [fits payload] in *.
  - change (len [v]) with 1 in *. apply IH; lia.
  - split; [lia|]. apply IH; lia.
Qed.

Lemma run_ops_below (grow : Z -> Z -> Z) (ops : list Op) (st : World)
  (buf : Buffer) :
  b (enc st) = Some buf ->
  ctx (enc st) = Some false ->
  len (unread buf) + len (flat_map payload ops) < MAXBUFSIZE ->
  exists buf',
    run_ops grow ops st =
      Ok tt (mkWorld (set_b (Some buf') (enc st)) (pipe st)) /\
    unread buf' = unread buf ++ flat_map payload ops.
Proof.
  intros Hb Hctx Hlen. apply run_ops_fits; try assumption.
  apply below_fits; [apply len_nonneg|exact Hlen].
Qed.

(** C1.  On an acquired encoder (empty buffer, token not fired), append
    operations whose bytes add up to less than [MAXBUFSIZE] write nothing
    to the pipe: the pipe and the counters stay as they were and the
    buffer holds the appended bytes in the order of the operations.
    [AppendBytes] runs [write] whenever the buffer holds [MAXBUFSIZE]
    bytes or more after its append; [AppendByte] only appends, whatever
    the size.  A [Write] after the operations, with [Pretty] off and a
    pipe that takes the bytes, hands the pipe exactly the appended bytes
    as one chunk, empties the buffer and counts one write. *)
Theorem buffered_until_threshold (grow : Z -> Z -> Z) (st : World)
  (buf : Buffer) (ops : list Op) :
  b (enc st) = Some buf ->
  unread buf = [] ->
  ctx (enc st) = Some false ->
  len (flat_map payload ops) < MAXBUFSIZE ->
  (exists buf',
     run_ops grow ops st =
       Ok tt (mkWorld (set_b (Some buf') (enc st)) (pipe st)) /\
     unread buf' = flat_map payload ops) /\
  (forall st1 buf1 v,
     b (enc st1) = Some buf1 -> ctx (enc st1) = Some false ->
     MAXBUFSIZE <= len (unread buf1) + len v ->
     AppendBytes grow v st1 = write grow (appended grow v buf1 st1)) /\
  (forall st1 buf1 v,
     b (enc st1) = Some buf1 -> ctx (enc st1) = Some false ->
     AppendByte grow v st1 = Ok tt (appended grow [v] buf1 st1)) /\
  (flat_map payload ops <> [] ->
   Pretty (c (enc st)) = false ->
   w (enc st) = true ->
   broken (pipe st) = false ->
   exists st',
     (run_ops grow ops ;;; Write grow) st = Ok tt st' /\
     received (pipe st') = received (pipe st) ++ [flat_map payload ops] /\
     f (enc st') = wrap64 (f (enc st) + 1) /\
     n (enc st') = wrap64 (n (enc st) + len (flat_map payload ops)) /\
     Bytes st' = Ok [] st').
Proof.
  intros Hb Hempty Hctx Hlen.
  destruct (run_ops_below grow ops st buf Hb Hctx) as (buf' & Hrun & Hun).
  { rewrite Hempty. change (len []) with 0. lia. }
  rewrite Hempty in Hun. cbn [Datatypes.app] in Hun.
  split; [exists buf'; split; assumption|].
  split; [intros st1 buf1 v; apply AppendBytes_full|].
  split; [intros st1 buf1 v; apply AppendByte_open|].
  intros Hne Hpretty Hw Hopen.
  set (st1 := mkWorld (set_b (Some buf') (enc st)) (pipe st)) in *.
  assert (Hprep : prepared grow st1 buf' = st1).
  { unfold prepared. subst st1. cbn [enc c set_b]. rewrite Hpretty.
    reflexivity. }
  pose proof (write_open grow st1 buf' buf') as Hwr.
  rewrite Hprep in Hwr.
  specialize (Hwr eq_refl).
  rewrite Hun in Hwr. specialize (Hwr Hne Hctx Hw eq_refl).
  change (pipe st1) with (pipe st) in Hwr. rewrite Hopen in Hwr.
  exists (sent st1 buf'). split.
  - unfold bind at 1. rewrite Hrun. unfold Write. exact Hwr.
  - unfold sent. cbn [pipe received enc f n set_n set_f set_b].
    rewrite Hun. repeat split; try reflexivity.
Qed.

Lemma buffered_until_threshold_witness :
  b (enc (acquired [])) = Some (mkBuffer [] 4096) /\
  ctx (enc (acquired [])) = Some false /\
  len (flat_map payload sampleOps) < MAXBUFSIZE /\
  exists buf',
    run_ops grow2 sampleOps (acquired []) =
      Ok tt (mkWorld (set_b (Some buf') (enc (acquired []))) openPipe) /\
    unread buf' = flat_map payload sampleOps.
Proof.
  split; [reflexivity|]. split; [reflexivity|]. split; [reflexivity|].
  exact (proj1 (buffered_until_threshold grow2 (acquired [])
                  (mkBuffer [] 4096) sampleOps
                  eq_refl eq_refl eq_refl eq_refl)).
Defined.

(** An [AppendByte] that brings the buffer to [MAXBUFSIZE] bytes writes
    nothing: the buffer keeps its 4096 bytes, the pipe has received
    nothing and the flush counter is still 0.  [AppendBytes] with the same
    byte does flush: the pipe receives the 4096 bytes and the buffer is
    empty. *)
Lemma AppendByte_reaches_threshold_without_flush :
  AppendByte grow2 x61 (acquired almostFull) =
    Ok tt (appended grow2 [x61] (mkBuffer almostFull 4096)
                    (acquired almostFull)) /\
  Len (appended grow2 [x61] (mkBuffer almostFull 4096) (acquired almostFull))
    = Ok MAXBUFSIZE
         (appended grow2 [x61] (mkBuffer almostFull 4096)
                   (acquired almostFull)) /\
  received (pipe (appended grow2 [x61] (mkBuffer almostFull 4096)
                           (acquired almostFull))) = [] /\
  f (enc (appended grow2 [x61] (mkBuffer almostFull 4096)
                   (acquired almostFull))) = 0 /\
  AppendBytes grow2 [x61] (acquired almostFull) =
    Ok tt (sent (appended grow2 [x61] (mkBuffer almostFull 4096)
                          (acquired almostFull))
                (buf_Write grow2 [x61] (mkBuffer almostFull 4096))) /\
  received (pipe (sent (appended grow2 [x61] (mkBuffer almostFull 4096)
                                 (acquired almostFull))
                       (buf_Write grow2 [x61] (mkBuffer almostFull 4096))))
    = [almostFull ++ [x61]].
Proof.
  repeat split; vm_compute; reflexivity.
Qed.

(** ** The counters and the pipe *)

(** [write], case by case. *)
Lemma write_cases (grow : Z -> Z -> Z) (st : World) :
  write grow st =
  match b (enc st) with
  | None => Panic st
  | Some buf =>
      if len (unread buf) =? 0 then Ok tt st
      else
        match ctx (enc st) with
        | None => Panic st
        | Some true => Ok tt st
        | Some false =>
            let st1 := prepared grow st buf in
            match b (enc st1) with
            | None => Panic st1
            | Some buf1 =>
                if w (enc st1)
                then if broken (pipe st1) then Panic st1
                     else Ok tt (sent st1 buf1)
                else Panic st1
            end
        end
  end.
Proof.
  unfold write. step.
  destruct (b (enc st)) as [buf|] eqn:Hb; [|reflexivity]. cbn beta iota.
  destruct (len (unread buf) =? 0); [reflexivity|].
  destruct (ctx (enc st)) as [[|]|]; try reflexivity. cbn beta iota zeta.
  unfold prepared.
  destruct (Pretty (c (enc st))).
  - rewrite (PrettyPrint_eq grow st buf Hb).
    unfold Bytes, pipe_Write. step. cbn [enc pipe].
    destruct (b (pretty_enc grow (enc st) buf)) as [buf1|] eqn:Hb1;
      [|reflexivity].
    cbn beta iota. cbn [enc pipe].
    destruct (w (pretty_enc grow (enc st) buf)); [|reflexivity].
    cbn beta iota. cbn [enc pipe]. unfold broken.
    destruct (rclosed (pipe st) || wclosed (pipe st)); [reflexivity|].
    cbn beta iota. cbn [enc pipe]. rewrite Hb1. reflexivity.
  - unfold Bytes, pipe_Write. step. rewrite Hb.
    cbn beta iota.
    destruct (w (enc st)); [|reflexivity].
    cbn beta iota. unfold broken.
    destruct (rclosed (pipe st) || wclosed (pipe st)); [reflexivity|].
    cbn beta iota. cbn [enc pipe]. rewrite Hb. reflexivity.
Qed.

Lemma wrap64_add (a k : Z) : wrap64 (wrap64 a + k) = wrap64 (a + k).
Proof.
  unfold wrap64. f_equal.
  replace ((a + 2 ^ 63) mod 2 ^ 64 - 2 ^ 63 + k + 2 ^ 63)
    with ((a + 2 ^ 63) mod 2 ^ 64 + k) by lia.
  rewrite Z.add_mod_idemp_l by lia. f_equal. lia.
Qed.

Lemma sent_counted (st : World) (buf : Buffer) :
  counted st -> counted (sent st buf).
Proof.
  intros [Hf Hn]. unfold counted, sent.
  cbn [enc pipe received f n set_n set_f set_b]. split.
  - rewrite Hf, wrap64_add, length_app. f_equal. cbn [List.length]. lia.
  - rewrite Hn, wrap64_add, concat_app, len_app. cbn [List.concat].
    rewrite app_nil_r. reflexivity.
Qed.

Lemma prepared_sound (grow : Z -> Z -> Z) (st : World) (buf : Buffer) :
  b (enc st) = Some buf -> sound st -> sound (prepared grow st buf).
Proof.
  intros Hb [(_ & Hw & fired & Hctx) [Hf Hn]].
  destruct (prepared_keeps grow st buf Hb)
    as (Hf1 & Hn1 & Hw1 & _ & Hctx1 & Hp1 & Hb1).
  split; [split; [exact Hb1|split]|split].
  - rewrite Hw1. exact Hw.
  - exists fired. rewrite Hctx1. exact Hctx.
  - rewrite Hf1, Hp1. exact Hf.
  - rewrite Hn1, Hp1. exact Hn.
Qed.

Lemma sent_sound (st : World) (buf : Buffer) :
  sound st -> sound (sent st buf).
Proof.
  intros [(Hb & Hw & Hctx) Hc]. split; [|apply sent_counted, Hc].
  unfold attached, sent. cbn [enc b w ctx set_n set_f set_b].
  split; [eauto|]. split; assumption.
Qed.

Lemma appended_sound (grow : Z -> Z -> Z) (v : list byte) (buf : Buffer)
  (st : World) :
  sound st -> sound (appended grow v buf st).
Proof.
  intros [(Hb & Hw & Hctx) Hc]. split; [|exact Hc].
  unfold attached, appended. cbn [enc b w ctx set_b].
  split; [eauto|]. split; assumption.
Qed.

Lemma write_sound (grow : Z -> Z -> Z) (st : World) :
  sound st -> sound (outcome (write grow st)).
Proof.
  intros Hs. rewrite write_cases.
  destruct (b (enc st)) as [buf|] eqn:Hb; [|exact Hs].
  destruct (len (unread buf) =? 0); [exact Hs|].
  destruct (ctx (enc st)) as [[|]|]; try exact Hs.
  cbn zeta. pose proof (prepared_sound grow st buf Hb Hs) as Hp.
  destruct (b (enc (prepared grow st buf))) as [buf1|]; [|exact Hp].
  destruct (w (enc (prepared grow st buf))); [|exact Hp].
  destruct (broken (pipe (prepared grow st buf))); [exact Hp|].
  apply sent_sound, Hp.
Qed.

Lemma flush_sound (grow : Z -> Z -> Z) (st : World) :
  sound st -> sound (outcome (flush grow st)).
Proof.
  intros Hs. unfold flush, Len. step.
  destruct (b (enc st)) as [buf|]; [|exact Hs]. cbn beta iota.
  destruct (MAXBUFSIZE <=? len (unread buf)); [|exact Hs].
  apply write_sound, Hs.
Qed.

Lemma perform_sound (grow : Z -> Z -> Z) (o : Op) (st : World) :
  sound st -> sound (outcome (perform grow o st)).
Proof.
  intros Hs. destruct o as [v|v]; cbn [perform].
  - unfold AppendByte. step.
    destruct (ctx (enc st)) as [[|]|]; try exact Hs. cbn beta iota.
    destruct (b (enc st)) as [buf|] eqn:Hb; [|exact Hs].
    apply (appended_sound grow [v] buf st Hs).
  - destruct (ctx (enc st)) as [[|]|] eqn:Hctx.
    + rewrite (AppendBytes_done grow v st Hctx). exact Hs.
    + destruct (b (enc st)) as [buf|] eqn:Hb.
      * rewrite (AppendBytes_open grow v st buf Hb Hctx).
        apply flush_sound, appended_sound, Hs.
      * unfold AppendBytes. step. rewrite Hctx. cbn beta iota.
        rewrite Hb. exact Hs.
    + unfold AppendBytes. step. rewrite Hctx. exact Hs.
Qed.

Lemma bind_sound {A B : Type} (m : M A) (k : A -> M B) (st : World) :
  sound (outcome (m st)) ->
  (forall a st', sound st' -> sound (outcome (k a st'))) ->
  sound (outcome (bind m k st)).
Proof.
  intros Hm Hk. unfold bind. destruct (m st) as [a st'|st'].
  - apply Hk, Hm.
  - exact Hm.
Qed.

Lemma run_ops_sound (grow : Z -> Z -> Z) (ops : list Op) :
  forall st, sound st -> sound (outcome (run_ops grow ops st)).
Proof.
  induction ops as [|o ops IH]; intros st Hs.
  - exact Hs.
  - cbn [run_ops]. apply bind_sound.
    + apply perform_sound, Hs.
    + intros _ st' Hs'. apply IH, Hs'.
Qed.

(** ** Release *)

Lemma Reset_eq (st : World) (buf : Buffer) :
  b (enc st) = Some buf ->
  Reset st = Ok tt (mkWorld (reset_enc (enc st)) (pipe st)).
Proof.
  intros Hb. unfold Reset. step. cbn [enc pipe b set_w set_c set_s set_d
    set_n set_f]. rewrite Hb. reflexivity.
Qed.

Lemma Release_returning (st : World) (buf : Buffer) :
  b (enc st) = Some buf ->
  Release false st =
  Ok (f (enc st), n (enc st), capacity buf)
     (mkWorld (reset_enc (enc st)) (pipe st)).
Proof.
  intros Hb. unfold Release. unfold bind at 1. unfold ret at 1.
  unfold bind at 1. unfold theBuffer, getEnc. step. rewrite Hb.
  cbn beta iota. rewrite (Reset_eq st buf Hb). reflexivity.
Qed.

Lemma Release_recovering (st : World) (buf : Buffer) (fired : bool) :
  b (enc st) = Some buf ->
  w (enc st) = true ->
  ctx (enc st) = Some fired ->
  Release true st =
  Ok (f (enc st), n (enc st), capacity buf)
     (mkWorld (reset_enc (set_ctx (Some true) (enc st)))
              (mkPipe (received (pipe st)) (rclosed (pipe st)) true)).
Proof.
  intros Hb Hw Hctx.
  set (st1 := mkWorld (set_ctx (Some true) (enc st))
                      (mkPipe (received (pipe st)) (rclosed (pipe st)) true)).
  assert (H1 : (cancel ;;; pipe_Close) st = Ok tt st1).
  { unfold cancel, pipe_Close. step. rewrite Hctx. cbn beta iota.
    cbn [enc pipe w set_ctx]. rewrite Hw. reflexivity. }
  assert (Hb1 : b (enc st1) = Some buf) by exact Hb.
  unfold Release. unfold bind at 1. rewrite H1.
  unfold bind at 1. unfold theBuffer, getEnc. step. rewrite Hb1.
  cbn beta iota. rewrite (Reset_eq st1 buf Hb1). reflexivity.
Qed.

(** From a sound state an operation panics only on a broken pipe. *)
Lemma write_panics_broken (grow : Z -> Z -> Z) (st stp : World) :
  sound st -> write grow st = Panic stp -> broken (pipe stp) = true.
Proof.
  intros Hs. rewrite write_cases.
  destruct Hs as [((buf & Hb) & Hw & fired & Hctx) Hc].
  rewrite Hb, Hctx.
  destruct (len (unread buf) =? 0); [discriminate|].
  destruct fired; [discriminate|]. cbn zeta.
  destruct (prepared_keeps grow st buf Hb)
    as (_ & _ & Hw1 & _ & _ & _ & buf1 & Hb1).
  rewrite Hb1, Hw1, Hw.
  destruct (broken (pipe (prepared grow st buf))) eqn:Hbr; [|discriminate].
  intros H. injection H as <-. exact Hbr.
Qed.

Lemma perform_panics_broken (grow : Z -> Z -> Z) (o : Op) (st stp : World) :
  sound st -> perform grow o st = Panic stp -> broken (pipe stp) = true.
Proof.
  intros Hs. pose proof Hs as [((buf & Hb) & Hw & fired & Hctx) Hc].
  destruct o as [v|v]; cbn [perform]; destruct fired.
  - rewrite (AppendByte_done grow v st Hctx). discriminate.
  - rewrite (AppendByte_open grow v st buf Hb Hctx). discriminate.
  - rewrite (AppendBytes_done grow v st Hctx). discriminate.
  - rewrite (AppendBytes_open grow v st buf Hb Hctx).
    unfold flush, Len. step. cbn [appended enc b set_b]. cbn beta iota.
    destruct (MAXBUFSIZE <=? _); [|discriminate].
    apply write_panics_broken, appended_sound, Hs.
Qed.

Lemma run_ops_panics_broken (grow : Z -> Z -> Z) (ops : list Op) :
  forall st stp,
    sound st -> run_ops grow ops st = Panic stp -> broken (pipe stp) = true.
Proof.
  induction ops as [|o ops IH]; intros st stp Hs.
  - discriminate.
  - cbn [run_ops]. unfold bind.
    pose proof (perform_sound grow o st Hs) as Hs1.
    pose proof (perform_panics_broken grow o st) as Hp.
    destruct (perform grow o st) as [[] st1|st1].
    + apply IH, Hs1.
    + intros H. injection H as <-. apply Hp; [exact Hs|reflexivity].
Qed.

(** C4.  Take an acquisition on a real writer whose counters agree with
    the pipe, a body of append operations followed by [Write], and
    [Release] deferred around it.  If the body panics, the panic comes
    from a [Write] on a broken pipe, and the deferred [Release] returns
    normally: the caller gets the flush count, the byte count and the
    capacity of the buffer, the counts being those of the chunks and
    bytes the pipe did receive; the token is fired, the writing end of the
    pipe is closed and the encoder is back to its reset state. *)
Theorem Release_recovers_write_fault (grow : Z -> Z -> Z) (ops : list Op)
  (st stp : World) :
  sound st ->
  (run_ops grow ops ;;; Write grow) st = Panic stp ->
  broken (pipe stp) = true /\
  exists bufp st',
    b (enc stp) = Some bufp /\
    deferRelease (run_ops grow ops ;;; Write grow) st =
      Ok (f (enc stp), n (enc stp), capacity bufp) st' /\
    f (enc stp) = wrap64 (Z.of_nat (List.length (received (pipe st')))) /\
    n (enc stp) = wrap64 (len (List.concat (received (pipe st')))) /\
    received (pipe st') = received (pipe stp) /\
    ctx (enc st') = Some true /\
    wclosed (pipe st') = true /\
    b (enc st') = None /\
    w (enc st') = false.
Proof.
  intros Hs Hbody.
  assert (Hsp : sound stp).
  { assert (H : sound (outcome ((run_ops grow ops ;;; Write grow) st))).
    { apply bind_sound.
      - apply run_ops_sound, Hs.
      - intros _ st1 Hs1. apply write_sound, Hs1. }
    rewrite Hbody in H. exact H. }
  split.
  - unfold bind in Hbody.
    pose proof (run_ops_sound grow ops st Hs) as Hs1.
    pose proof (run_ops_panics_broken grow ops st) as Hp.
    destruct (run_ops grow ops st) as [[] st1|st1].
    + apply (write_panics_broken grow st1 stp Hs1 Hbody).
    + injection Hbody as <-. apply Hp; [exact Hs|reflexivity].
  - destruct Hsp as [((bufp & Hb) & Hw & fired & Hctx) [Hf Hn]].
    exists bufp. eexists. split; [exact Hb|]. split.
    + unfold deferRelease. rewrite Hbody.
      apply (Release_recovering stp bufp fired Hb Hw Hctx).
    + cbn [pipe received wclosed enc]. repeat split; assumption.
Qed.

Lemma readerGone_sound : sound (readerGone []).
Proof.
  split; [split; [eexists; reflexivity|split; [reflexivity|]]|split].
  - exists false. reflexivity.
  - reflexivity.
  - reflexivity.
Defined.

Lemma Release_recovers_write_fault_witness :
  sound (readerGone []) /\
  sampleBody (readerGone []) = Panic panicState /\
  broken (pipe panicState) = true.
Proof.
  split; [exact readerGone_sound|]. split; [reflexivity|].
  exact (proj1 (Release_recovers_write_fault grow2 sampleOps (readerGone [])
                  panicState readerGone_sound eq_refl)).
Defined.

(** [TestEncoderRelease], case [recovers]: ten bytes appended, the reader
    closed, [Write] called, [Release] deferred.  The caller sees no panic
    and gets zero flushes and zero bytes. *)
Example Release_recovers_test :
  exists cap st',
    deferRelease (AppendBytes grow2 (repeat x00 10) ;;; Write grow2)
                 (readerGone []) = Ok (0, 0, cap) st' /\
    ctx (enc st') = Some true /\ wclosed (pipe st') = true.
Proof. do 2 eexists. split; [cbv; reflexivity|]. split; reflexivity. Qed.

(** With a [nil] writer there is no pipe to close: [Release] itself panics
    while recovering. *)
Example Release_nil_writer :
  exists st',
    deferRelease (AppendByte grow2 x61 ;;; Write grow2)
      (mkWorld (GetEncoder grow2 false (mkBuffer [] 0)) openPipe)
    = Panic st'.
Proof. eexists. cbv. reflexivity. Qed.

(** ** Key writers *)







(** [TestEncoderWriteUint32Key] and [TestEncoderWriteEncodedUint32Key]. *)
Example WriteUint32Key_test :
  keyed (bytes_of "/foo/bar") (AppendUint 473829) true
    = [quoteMark] ++ bytes_of "/foo/bar" ++ [quoteMark] ++
      bytes_of ":473829," /\
  keyed (bytes_of "/foo/bar") (AppendUint 473829) false
    = [quoteMark] ++ bytes_of "/foo/bar" ++ [quoteMark] ++
      bytes_of ":473829" /\
  keyed (bytes_of "/foo/bar") (quoted (AppendUint 473829)) false
    = [quoteMark] ++ bytes_of "/foo/bar" ++ [quoteMark; colon; quoteMark] ++
      bytes_of "473829" ++ [quoteMark].
Proof. repeat split; reflexivity. Qed.


(** ** Timestamps *)

Lemma all_from_spec (P : Z -> bool) (count : nat) :
  forall start,
    all_from P start count = true ->
    forall x, start <= x < start + Z.of_nat count -> P x = true.
Proof.
  induction count as [|k IH]; intros start H x Hx; [lia|].
  cbn [all_from] in H. apply andb_prop in H. destruct H as [H0 H1].
  destruct (Z.eq_dec x start) as [->|Hne]; [exact H0|].
  apply (IH (start + 1) H1). lia.
Qed.

Lemma appendInt_two (x : Z) : 0 <= x < 100 -> appendInt x 2 = two x.
Proof.
  intros Hx.
  set (P := fun z => if list_eq_dec Byte.byte_eq_dec
                          (appendInt z 2) (two z)
                     then true else false).
  assert (H : all_from P 0 (Z.to_nat 100) = true)
    by (vm_compute; reflexivity).
  pose proof (all_from_spec P _ 0 H x) as Hc. unfold P in Hc.
  rewrite Z2Nat.id in Hc by lia. specialize (Hc ltac:(lia)).
  destruct (list_eq_dec _ _ _) in Hc; [assumption|discriminate].
Qed.

Lemma appendInt_four (x : Z) : 0 <= x < 10000 -> appendInt x 4 = four x.
Proof.
  intros Hx.
  set (P := fun z => if list_eq_dec Byte.byte_eq_dec
                          (appendInt z 4) (four z)
                     then true else false).
  assert (H : all_from P 0 (Z.to_nat 10000) = true)
    by (vm_compute; reflexivity).
  pose proof (all_from_spec P _ 0 H x) as Hc. unfold P in Hc.
  rewrite Z2Nat.id in Hc by lia. specialize (Hc ltac:(lia)).
  destruct (list_eq_dec _ _ _) in Hc; [assumption|discriminate].
Qed.

(** Every day from 1969-12-30 to 2106-02-09 has a date of the pattern:
    49716 day numbers, each one checked. *)
Lemma date_ok_uint32 (days : Z) :
  -2 <= days <= 49713 -> date_ok days = true.
Proof.
  intros Hd.
  assert (H : all_from date_ok (-2) (Z.to_nat 49716) = true)
    by (vm_compute; reflexivity).
  pose proof (all_from_spec date_ok _ (-2) H days) as Hc.
  rewrite Z2Nat.id in Hc by lia. apply Hc. lia.
Qed.

Lemma civil_in_range (abs : Z) :
  -2 * 86400 <= abs < 49714 * 86400 -> in_range (civil abs).
Proof.
  intros Ha.
  assert (Hd : -2 <= abs / 86400 <= 49713).
  { split.
    - apply Z.div_le_lower_bound; lia.
    - assert (abs / 86400 < 49714) by (apply Z.div_lt_upper_bound; lia).
      lia. }
  pose proof (date_ok_uint32 _ Hd) as Hok.
  unfold date_ok in Hok. unfold civil, in_range.
  destruct (dateOfDays (abs / 86400)) as [[yy mm] dd].
  cbn [year month day hour minute second].
  repeat (apply andb_prop in Hok; destruct Hok as [Hok ?]).
  pose proof (Z.mod_pos_bound abs 86400 ltac:(lia)) as Hs.
  pose proof (Z.mod_pos_bound (abs mod 86400) 3600 ltac:(lia)).
  pose proof (Z.mod_pos_bound (abs mod 86400) 60 ltac:(lia)).
  repeat match goal with
         | H : (_ <=? _) = true |- _ => apply Z.leb_le in H
         end.
  repeat split; try lia.
  - apply Z.div_pos; lia.
  - assert (abs mod 86400 / 3600 < 24)
      by (apply Z.div_lt_upper_bound; lia). lia.
  - apply Z.div_pos; lia.
  - assert (abs mod 86400 mod 3600 / 60 < 60)
      by (apply Z.div_lt_upper_bound; lia). lia.
Qed.

Lemma AppendFormat_ISO8601 (t : Civil) :
  in_range t -> AppendFormat t ISO8601 = isoText t.
Proof.
  intros (Hy & Hm & Hd & Hh & Hmi & Hs).
  change (AppendFormat t ISO8601) with
    (appendInt (year t) 4 ++ x2d :: appendInt (month t) 2 ++
     x2d :: appendInt (day t) 2 ++ x54 :: appendInt (hour t) 2 ++
     x3a :: appendInt (minute t) 2 ++ x3a :: appendInt (second t) 2 ++ []).
  rewrite appendInt_four, !appendInt_two by lia. reflexivity.
Qed.

Lemma AppendFormat_ISO8601u (t : Civil) :
  in_range t -> AppendFormat t ISO8601u = isoText t ++ bytes_of "+00".
Proof.
  intros (Hy & Hm & Hd & Hh & Hmi & Hs).
  change (AppendFormat t ISO8601u) with
    (appendInt (year t) 4 ++ x2d :: appendInt (month t) 2 ++
     x2d :: appendInt (day t) 2 ++ x54 :: appendInt (hour t) 2 ++
     x3a :: appendInt (minute t) 2 ++ x3a :: appendInt (second t) 2 ++
     bytes_of "+00").
  rewrite appendInt_four, !appendInt_two by lia. reflexivity.
Qed.





(** [TestEncoderWriteUint32Timestamp], cases [local] and [utc], on a
    machine one hour east of UTC. *)
Example WriteUint32Timestamp_test :
  (exists st',
     WriteUint32Timestamp grow2 oneHourEast (bytes_of "timestamp") 0 false
       (acquired []) = Ok tt st' /\
     Bytes st' =
       Ok ([quoteMark] ++ bytes_of "timestamp" ++
           [quoteMark; colon; quoteMark] ++ bytes_of "1970-01-01T01:00:00" ++
           [quoteMark]) st') /\
  timestampText oneHourEast true 0 = bytes_of "1970-01-01T00:00:00+00" /\
  timestampText oneHourEast true 1612530332
    = bytes_of "2021-02-05T13:05:32+00".
Proof.
  split; [|split; reflexivity].
  eexists. split; [vm_compute; reflexivity|]. vm_compute. reflexivity.
Qed.

(** Known instants: a leap day of a year divisible by 400, the days around
    the end of February 2100 (no leap year), the last second of 1969 and
    the last second of a leap day. *)
Example civil_known_dates :
  civil 951782400 = mkCivil 2000 2 29 0 0 0 /\
  civil 4107456000 = mkCivil 2100 2 28 0 0 0 /\
  civil 4107542400 = mkCivil 2100 3 1 0 0 0 /\
  civil (-1) = mkCivil 1969 12 31 23 59 59 /\
  civil 1709251199 = mkCivil 2024 2 29 23 59 59.
Proof. repeat split; reflexivity. Qed.

(** ** RoundFloat *)



(** ** The stream, with [Pretty] off *)

Lemma write_live (grow : Z -> Z -> Z) (st : World) :
  live st -> Pretty (c (enc st)) = false ->
  exists st',
    write grow st = Ok tt st' /\
    live st' /\ c (enc st') = c (enc st) /\
    stream st' = stream st /\
    pending st' = [] /\
    (counted st -> counted st') /\
    (pending st = [] /\ received (pipe st') = received (pipe st) \/
     received (pipe st') = received (pipe st) ++ [pending st]).
Proof.
  intros ((buf & Hb) & Hctx & Hw & Hbr) Hp.
  rewrite write_cases, Hb, Hctx. unfold prepared. rewrite Hp, Hb, Hw, Hbr.
  destruct (len (unread buf) =? 0) eqn:E.
  - assert (Hnil : unread buf = []).
    { apply Z.eqb_eq in E. destruct (unread buf); [reflexivity|].
      rewrite len_cons in E. pose proof (len_nonneg l). lia. }
    exists st. split; [reflexivity|].
    split; [repeat split; eauto|]. split; [reflexivity|].
    split; [reflexivity|]. unfold pending. rewrite Hb.
    split; [exact Hnil|]. split; [auto|]. left. split; [exact Hnil|reflexivity].
  - exists (sent st buf). split; [reflexivity|].
    split; [|split; [reflexivity|]].
    + unfold live, sent. cbn [enc pipe b ctx w set_n set_f set_b].
      repeat split; eauto.
    + unfold stream, pending, sent.
      cbn [enc pipe b received set_n set_f set_b buf_Reset unread].
      rewrite Hb, concat_app. cbn [List.concat]. rewrite !app_nil_r.
      split; [reflexivity|]. split; [reflexivity|].
      split; [apply sent_counted|]. right. reflexivity.
Qed.

Lemma appended_live (grow : Z -> Z -> Z) (v : list byte) (buf : Buffer)
  (st : World) :
  live st -> b (enc st) = Some buf ->
  live (appended grow v buf st) /\
  c (enc (appended grow v buf st)) = c (enc st) /\
  stream (appended grow v buf st) = stream st ++ v /\
  pending (appended grow v buf st) = pending st ++ v /\
  pipe (appended grow v buf st) = pipe st /\
  (counted st -> counted (appended grow v buf st)).
Proof.
  intros (_ & Hctx & Hw & Hbr) Hb.
  unfold live, stream, pending, appended, counted.
  cbn [enc pipe b ctx w c f n set_b buf_Write unread]. rewrite Hb.
  repeat split; eauto; try apply H. rewrite app_assoc. reflexivity.
Qed.

Lemma perform_live (grow : Z -> Z -> Z) (o : Op) (st : World) :
  live st -> Pretty (c (enc st)) = false ->
  exists st' news,
    perform grow o st = Ok tt st' /\
    live st' /\ c (enc st') = c (enc st) /\
    stream st' = stream st ++ payload o /\
    received (pipe st') = received (pipe st) ++ news /\
    Forall full news /\
    (counted st -> counted st').
Proof.
  intros Hl Hp. pose proof Hl as ((buf & Hb) & Hctx & Hw & Hbr).
  destruct (appended_live grow (payload o) buf st Hl Hb)
    as (Hl1 & Hc1 & Hs1 & Hp1 & Hpipe1 & Hcnt1).
  destruct o as [v|v]; cbn [perform payload] in *.
  - exists (appended grow [v] buf st), [].
    split; [apply AppendByte_open; assumption|].
    rewrite Hpipe1, app_nil_r.
    split; [exact Hl1|]. split; [exact Hc1|]. split; [exact Hs1|].
    split; [reflexivity|]. split; [constructor|exact Hcnt1].
  - rewrite (AppendBytes_open grow v st buf Hb Hctx).
    destruct (Z_lt_le_dec (len (unread buf) + len v) MAXBUFSIZE) as [Hlt|Hge].
    + exists (appended grow v buf st), [].
      split.
      { apply (flush_below grow _ (buf_Write grow v buf)); [reflexivity|].
        cbn [buf_Write unread]. rewrite len_app. exact Hlt. }
      rewrite Hpipe1, app_nil_r.
      split; [exact Hl1|]. split; [exact Hc1|]. split; [exact Hs1|].
      split; [reflexivity|]. split; [constructor|exact Hcnt1].
    + rewrite (flush_full grow _ (buf_Write grow v buf));
        [|reflexivity|cbn [buf_Write unread]; rewrite len_app; exact Hge].
      destruct (write_live grow (appended grow v buf st) Hl1)
        as (st' & Hwr & Hl' & Hc' & Hs' & Hpend' & Hcnt' & Hrecv).
      { rewrite Hc1. exact Hp. }
      assert (Hfull : full (pending st ++ v)).
      { unfold full, pending. rewrite Hb, len_app. exact Hge. }
      exists st'.
      exists (if list_eq_dec Byte.byte_eq_dec (pending st ++ v) []
              then [] else [pending st ++ v]).
      split; [exact Hwr|]. split; [exact Hl'|].
      split; [rewrite Hc', Hc1; reflexivity|].
      split; [rewrite Hs', Hs1; reflexivity|].
      rewrite Hp1, Hpipe1 in Hrecv.
      split; [|split].
      * destruct (list_eq_dec _ _ _) as [E|E].
        -- rewrite app_nil_r. destruct Hrecv as [[_ H]|H]; [exact H|].
           rewrite H, E. unfold full in Hfull. rewrite E in Hfull.
           change (len []) with 0 in Hfull. unfold MAXBUFSIZE in Hfull. lia.
        -- destruct Hrecv as [[H _]|H]; [contradiction|exact H].
      * destruct (list_eq_dec _ _ _); constructor; [exact Hfull|constructor].
      * intros Hc. apply Hcnt', Hcnt1, Hc.
Qed.

Lemma run_ops_live (grow : Z -> Z -> Z) (ops : list Op) :
  forall st,
    live st -> Pretty (c (enc st)) = false ->
    exists st' news,
      run_ops grow ops st = Ok tt st' /\
      live st' /\ c (enc st') = c (enc st) /\
      stream st' = stream st ++ flat_map payload ops /\
      received (pipe st') = received (pipe st) ++ news /\
      Forall full news /\
      (counted st -> counted st').
Proof.
  induction ops as [|o ops IH]; intros st Hl Hp.
  - exists st, []. rewrite !app_nil_r.
    split; [reflexivity|]. split; [exact Hl|]. split; [reflexivity|].
    split; [reflexivity|]. split; [reflexivity|]. split; [constructor|auto].
  - destruct (perform_live grow o st Hl Hp)
      as (st1 & n1 & Hrun1 & Hl1 & Hc1 & Hs1 & Hr1 & Hf1 & Hcnt1).
    destruct (IH st1 Hl1) as (st2 & n2 & Hrun2 & Hl2 & Hc2 & Hs2 & Hr2 & Hf2 & Hcnt2).
    { rewrite Hc1. exact Hp. }
    exists st2, (n1 ++ n2).
    split; [cbn [run_ops]; unfold bind; rewrite Hrun1; exact Hrun2|].
    split; [exact Hl2|]. split; [rewrite Hc2; exact Hc1|].
    split; [rewrite Hs2, Hs1; cbn [flat_map]; rewrite app_assoc; reflexivity|].
    split; [rewrite Hr2, Hr1, app_assoc; reflexivity|].
    split; [apply Forall_app; split; assumption|auto].
Qed.


(** ** The stream, with [Pretty] on *)

(** The loop body does not look at the output written so far. *)
Lemma pp_byte_prefix (cfg : EncoderConfig) (ch : byte) (dep : Z) (str : bool)
  (pre out : list byte) :
  pp_byte cfg ch (mkPState dep str (pre ++ out)) =
  mkPState (pd (pp_byte cfg ch (mkPState dep str out)))
           (ps (pp_byte cfg ch (mkPState dep str out)))
           (pre ++ pout (pp_byte cfg ch (mkPState dep str out))).
Proof.
  unfold pp_byte. cbn [pd ps pout].
  repeat match goal with
         | |- context [if ?x then _ else _] => destruct x
         end;
    cbn [pd ps pout]; rewrite <- ?app_assoc; reflexivity.
Qed.

Lemma pp_run_prefix (cfg : EncoderConfig) (bs : list byte) :
  forall dep str pre out,
    pp_run cfg bs (mkPState dep str (pre ++ out)) =
    mkPState (pd (pp_run cfg bs (mkPState dep str out)))
             (ps (pp_run cfg bs (mkPState dep str out)))
             (pre ++ pout (pp_run cfg bs (mkPState dep str out))).
Proof.
  induction bs as [|ch bs IH]; intros dep str pre out.
  - reflexivity.
  - change (pp_run cfg (ch :: bs) ?p) with (pp_run cfg bs (pp_byte cfg ch p)).
    rewrite pp_byte_prefix.
    destruct (pp_byte cfg ch (mkPState dep str out)) as [d1 s1 o1].
    cbn [pd ps pout]. apply IH.
Qed.

Lemma pp_run_app (cfg : EncoderConfig) (xs ys : list byte) (p : PState) :
  pp_run cfg (xs ++ ys) p = pp_run cfg ys (pp_run cfg xs p).
Proof. unfold pp_run. apply fold_left_app. Qed.

Lemma write_pretty (grow : Z -> Z -> Z) (st : World) :
  live st -> Pretty (c (enc st)) = true ->
  Forall nonzero (pending st) ->
  exists st',
    write grow st = Ok tt st' /\
    live st' /\ c (enc st') = c (enc st) /\
    pending st' = [] /\
    formatted st' = formatted st /\
    (counted st -> counted st').
Proof.
  intros ((buf & Hb) & Hctx & Hw & Hbr) Hp Hnz.
  unfold pending in Hnz. rewrite Hb in Hnz.
  rewrite write_cases, Hb, Hctx.
  destruct (len (unread buf) =? 0) eqn:E.
  - assert (Hnil : unread buf = []).
    { apply Z.eqb_eq in E. destruct (unread buf); [reflexivity|].
      rewrite len_cons in E. pose proof (len_nonneg l). lia. }
    exists st. split; [reflexivity|]. split; [repeat split; eauto|].
    split; [reflexivity|]. unfold pending. rewrite Hb.
    split; [exact Hnil|]. split; [reflexivity|auto].
  - apply Z.eqb_neq in E. cbn zeta.
    set (q := pp_run (c (enc st)) (unread buf)
                (mkPState (d (enc st)) (s (enc st)) [])).
    assert (Hq : 0 < len (pout q)).
    { pose proof (pp_run_grows (c (enc st)) (unread buf)
                    (mkPState (d (enc st)) (s (enc st)) [])) as Hg.
      fold q in Hg. change (len (pout (mkPState _ _ []))) with 0 in Hg.
      pose proof (len_nonneg (unread buf)). lia. }
    assert (Hprep : prepared grow st buf =
                    mkWorld
                      (set_b (Some (buf_Write grow (pout q) (buf_Reset buf)))
                         (set_s (ps q) (set_d (pd q)
                            (set_b (Some (mkBuffer [] (capacity buf)))
                               (enc st)))))
                      (pipe st)).
    { unfold prepared. rewrite Hp. unfold pretty_enc. cbn zeta.
      rewrite (pp_loop_nonzero _ _ Hnz). cbn [fst snd]. fold q.
      apply Z.ltb_lt in Hq. rewrite Hq. reflexivity. }
    rewrite Hprep. cbn [enc pipe b w set_b set_s set_d]. rewrite Hw, Hbr.
    eexists. split; [reflexivity|].
    split; [|split; [|split; [|split]]].
    + unfold live, sent. cbn [enc pipe b ctx w set_n set_f set_b set_s set_d].
      repeat split; eauto.
    + reflexivity.
    + reflexivity.
    + unfold formatted, pending, sent.
      cbn [enc pipe b c d s received set_n set_f set_b set_s set_d
           buf_Reset buf_Write unread].
      rewrite Hb, concat_app. cbn [List.concat Datatypes.app].
      rewrite app_nil_r. change (pp_run ?cfg [] ?p) with p.
      rewrite <- (app_nil_r (List.concat (received (pipe st)))) at 2.
      rewrite pp_run_prefix. reflexivity.
    + intros Hc. apply sent_counted. exact Hc.
Qed.

Lemma appended_formatted (grow : Z -> Z -> Z) (v : list byte) (buf : Buffer)
  (st : World) :
  b (enc st) = Some buf ->
  formatted (appended grow v buf st) = pp_run (c (enc st)) v (formatted st).
Proof.
  intros Hb. unfold formatted, pending, appended.
  cbn [enc pipe b c d s set_b buf_Write unread]. rewrite Hb.
  apply pp_run_app.
Qed.

Lemma perform_pretty (grow : Z -> Z -> Z) (o : Op) (st : World) :
  live st -> Pretty (c (enc st)) = true ->
  Forall nonzero (pending st) -> Forall nonzero (payload o) ->
  exists st',
    perform grow o st = Ok tt st' /\
    live st' /\ c (enc st') = c (enc st) /\
    Forall nonzero (pending st') /\
    formatted st' = pp_run (c (enc st)) (payload o) (formatted st) /\
    (counted st -> counted st').
Proof.
  intros Hl Hp Hnz Hno. pose proof Hl as ((buf & Hb) & Hctx & Hw & Hbr).
  destruct (appended_live grow (payload o) buf st Hl Hb)
    as (Hl1 & Hc1 & Hs1 & Hp1 & Hpipe1 & Hcnt1).
  pose proof (appended_formatted grow (payload o) buf st Hb) as Hf1.
  assert (Hnz1 : Forall nonzero (pending (appended grow (payload o) buf st))).
  { rewrite Hp1. apply Forall_app. split; assumption. }
  destruct o as [v|v]; cbn [perform payload] in *.
  - exists (appended grow [v] buf st).
    split; [apply AppendByte_open; assumption|]. auto 10.
  - rewrite (AppendBytes_open grow v st buf Hb Hctx).
    destruct (Z_lt_le_dec (len (unread buf) + len v) MAXBUFSIZE) as [Hlt|Hge].
    + exists (appended grow v buf st).
      split; [|auto 10].
      apply (flush_below grow _ (buf_Write grow v buf)); [reflexivity|].
      cbn [buf_Write unread]. rewrite len_app. exact Hlt.
    + rewrite (flush_full grow _ (buf_Write grow v buf));
        [|reflexivity|cbn [buf_Write unread]; rewrite len_app; exact Hge].
      destruct (write_pretty grow (appended grow v buf st) Hl1)
        as (st' & Hwr & Hl' & Hc' & Hpend' & Hf' & Hcnt'); [|exact Hnz1|].
      { rewrite Hc1. exact Hp. }
      exists st'. split; [exact Hwr|]. split; [exact Hl'|].
      split; [rewrite Hc', Hc1; reflexivity|].
      split; [rewrite Hpend'; constructor|].
      split; [rewrite Hf', Hf1; reflexivity|auto].
Qed.

Lemma run_ops_pretty (grow : Z -> Z -> Z) (ops : list Op) :
  forall st,
    live st -> Pretty (c (enc st)) = true ->
    Forall nonzero (pending st) -> Forall nonzero (flat_map payload ops) ->
    exists st',
      run_ops grow ops st = Ok tt st' /\
      live st' /\ c (enc st') = c (enc st) /\
      Forall nonzero (pending st') /\
      formatted st' = pp_run (c (enc st)) (flat_map payload ops) (formatted st) /\
      (counted st -> counted st').
Proof.
  induction ops as [|o ops IH]; intros st Hl Hp Hnz Hno.
  - exists st. split; [reflexivity|]. auto 10.
  - cbn [flat_map] in Hno. apply Forall_app in Hno. destruct Hno as [Ho Hrest].
    destruct (perform_pretty grow o st Hl Hp Hnz Ho)
      as (st1 & Hrun1 & Hl1 & Hc1 & Hnz1 & Hf1 & Hcnt1).
    destruct (IH st1 Hl1) as (st2 & Hrun2 & Hl2 & Hc2 & Hnz2 & Hf2 & Hcnt2);
      [rewrite Hc1; exact Hp|exact Hnz1|exact Hrest|].
    exists st2.
    split; [cbn [run_ops]; unfold bind; rewrite Hrun1; exact Hrun2|].
    split; [exact Hl2|]. split; [rewrite Hc2; exact Hc1|].
    split; [exact Hnz2|].
    split; [|auto].
    rewrite Hf2, Hf1, Hc1. cbn [flat_map]. rewrite pp_run_app. reflexivity.
Qed.

(** ** Streams *)

Lemma acquired_live (bytes : list byte) : live (acquired bytes).
Proof.
  split; [eexists; reflexivity|]. split; [reflexivity|].
  split; reflexivity.
Defined.

(** X1.  With [Pretty] off, on an encoder with a buffer, an unfired token
    and an open pipe, any sequence of [AppendByte] and [AppendBytes], of
    any sizes, returns; the chunks the pipe received followed by the bytes
    still in the buffer are the stream as it was followed by the appended
    bytes, in order; every chunk sent on the way holds at least
    [MAXBUFSIZE] bytes; the counters stay in step with the pipe.  A [Write]
    after the operations leaves the buffer empty, so the pipe has the
    whole stream. *)
Theorem stream_in_order (grow : Z -> Z -> Z) (ops : list Op) (st : World) :
  live st -> Pretty (c (enc st)) = false ->
  (exists st' news,
     run_ops grow ops st = Ok tt st' /\
     stream st' = stream st ++ flat_map payload ops /\
     received (pipe st') = received (pipe st) ++ news /\
     Forall full news /\
     live st' /\
     (counted st -> counted st')) /\
  (exists st',
     (run_ops grow ops ;;; Write grow) st = Ok tt st' /\
     List.concat (received (pipe st')) = stream st ++ flat_map payload ops /\
     pending st' = [] /\
     (counted st -> counted st')).
Proof.
  intros Hl Hp.
  destruct (run_ops_live grow ops st Hl Hp)
    as (st1 & news & Hrun & Hl1 & Hc1 & Hs1 & Hr1 & Hf1 & Hcnt1).
  split.
  - exists st1, news. auto 10.
  - destruct (write_live grow st1 Hl1) as
      (st2 & Hwr & Hl2 & Hc2 & Hs2 & Hpend2 & Hcnt2 & _).
    { rewrite Hc1. exact Hp. }
    exists st2. split; [unfold bind; rewrite Hrun; exact Hwr|].
    split; [|split; [exact Hpend2|auto]].
    rewrite <- Hs1, <- Hs2. unfold stream. rewrite Hpend2, app_nil_r.
    reflexivity.
Qed.

Lemma stream_in_order_witness :
  live (acquired []) /\
  Pretty (c (enc (acquired []))) = false /\
  exists st',
    (run_ops grow2 sampleOps ;;; Write grow2) (acquired []) = Ok tt st' /\
    List.concat (received (pipe st')) =
      stream (acquired []) ++ flat_map payload sampleOps /\
    pending st' = [] /\
    (counted (acquired []) -> counted st').
Proof.
  split; [exact (acquired_live [])|]. split; [reflexivity|].
  exact (proj2 (stream_in_order grow2 sampleOps (acquired [])
                  (acquired_live []) eq_refl)).
Defined.



(** X3.  With [Pretty] on and no zero byte in the stream, the pipe
    receives the reformatting of the whole stream, however the bytes were
    grouped into operations and wherever the threshold cut the stream into
    chunks: after the operations and a [Write], what the pipe received
    since the start is the output of one pass over the pending and the
    appended bytes, and the depth and the in-string flag are those at the
    end of that pass. *)
Theorem pretty_stream_chunking (grow : Z -> Z -> Z) (ops : list Op)
  (st : World) :
  live st -> Pretty (c (enc st)) = true ->
  Forall nonzero (pending st) ->
  Forall nonzero (flat_map payload ops) ->
  let whole :=
    pp_run (c (enc st)) (pending st ++ flat_map payload ops)
      (mkPState (d (enc st)) (s (enc st)) []) in
  exists st',
    (run_ops grow ops ;;; Write grow) st = Ok tt st' /\
    List.concat (received (pipe st')) =
      List.concat (received (pipe st)) ++ pout whole /\
    d (enc st') = pd whole /\
    s (enc st') = ps whole /\
    pending st' = [] /\
    (counted st -> counted st').
Proof.
  intros Hl Hp Hnz Hno whole.
  destruct (run_ops_pretty grow ops st Hl Hp Hnz Hno)
    as (st1 & Hrun & Hl1 & Hc1 & Hnz1 & Hf1 & Hcnt1).
  destruct (write_pretty grow st1 Hl1) as
    (st2 & Hwr & Hl2 & Hc2 & Hpend2 & Hf2 & Hcnt2);
    [rewrite Hc1; exact Hp|exact Hnz1|].
  exists st2. split; [unfold bind; rewrite Hrun; exact Hwr|].
  assert (E : mkPState (d (enc st2)) (s (enc st2))
                (List.concat (received (pipe st2))) =
              mkPState (pd whole) (ps whole)
                (List.concat (received (pipe st)) ++ pout whole)).
  { transitivity (formatted st2).
    - unfold formatted. rewrite Hpend2. reflexivity.
    - rewrite Hf2, Hf1. unfold formatted. rewrite <- pp_run_app.
      rewrite <- (app_nil_r (List.concat (received (pipe st)))) at 1.
      apply pp_run_prefix. }
  injection E as Ed Es Eo. auto 10.
Qed.

Lemma sampleOpening_nonzero : Forall nonzero (flat_map payload openingOps).
Proof. repeat constructor; intros H; discriminate H. Defined.

Lemma prettyAcquired_live (bytes : list byte) : live (prettyAcquired bytes).
Proof.
  split; [eexists; reflexivity|]. split; [reflexivity|].
  split; reflexivity.
Defined.

Lemma pretty_stream_chunking_witness :
  live (prettyAcquired []) /\
  Pretty (c (enc (prettyAcquired []))) = true /\
  Forall nonzero (pending (prettyAcquired [])) /\
  Forall nonzero (flat_map payload openingOps) /\
  exists st',
    (run_ops grow2 openingOps ;;; Write grow2) (prettyAcquired []) =
      Ok tt st' /\
    List.concat (received (pipe st')) =
      [lBrace; newLine] ++ repeat space 4 ++ [quoteMark] ++ bytes_of "k" ++
      [quoteMark; colon; space; lBracket; newLine] ++ repeat space 8 /\
    d (enc st') = 2 /\
    s (enc st') = false /\
    pending st' = [] /\
    (counted (prettyAcquired []) -> counted st').
Proof.
  split; [exact (prettyAcquired_live [])|]. split; [reflexivity|].
  split; [constructor|]. split; [exact sampleOpening_nonzero|].
  exact (pretty_stream_chunking grow2 openingOps (prettyAcquired [])
           (prettyAcquired_live []) eq_refl (Forall_nil _)
           sampleOpening_nonzero).
Defined.

(** ** What the reformatter changes *)

(** [PrettyPrint] on a buffer without a zero byte. *)
Lemma PrettyPrint_nonzero (grow : Z -> Z -> Z) (st : World) (buf : Buffer) :
  b (enc st) = Some buf ->
  Forall nonzero (unread buf) ->
  let q := pp_run (c (enc st)) (unread buf)
             (mkPState (d (enc st)) (s (enc st)) []) in
  exists st',
    PrettyPrint grow st = Ok tt st' /\
    pending st' = pout q /\
    d (enc st') = pd q /\
    s (enc st') = ps q /\
    c (enc st') = c (enc st) /\
    pipe st' = pipe st.
Proof.
  intros Hb Hnz q.
  rewrite (PrettyPrint_eq grow st buf Hb). eexists. split; [reflexivity|].
  unfold pretty_enc, pending. cbn zeta.
  rewrite (pp_loop_nonzero _ _ Hnz). cbn [fst snd]. fold q.
  destruct (0 <? len (pout q)) eqn:E;
    cbn [enc pipe b d s c set_b set_s set_d buf_Write buf_Reset unread
         Datatypes.app]; [auto 10|].
  apply Z.ltb_ge in E. pose proof (len_nonneg (pout q)) as H0.
  pose proof (pp_run_grows (c (enc st)) (unread buf)
                (mkPState (d (enc st)) (s (enc st)) [])) as Hg.
  fold q in Hg. change (len (pout (mkPState _ _ []))) with 0 in Hg.
  assert (Hq : pout q = []).
  { destruct (pout q); [reflexivity|]. rewrite len_cons in *.
    pose proof (len_nonneg l). lia. }
  rewrite Hq. auto 10.
Qed.

Lemma strip_app (xs ys : list byte) : strip (xs ++ ys) = strip xs ++ strip ys.
Proof. apply filter_app. Qed.

Lemma strip_indentNewLine (cfg : EncoderConfig) (dep : Z) :
  strip (indentNewLine cfg dep) = [].
Proof.
  unfold indentNewLine. cbn zeta.
  generalize (Z.to_nat (wrap64 (dep * (if negb (Indent cfg =? 0)
                                        then 1 else INDENT)))).
  intros k. change (strip (newLine :: ?l)) with (strip l).
  destruct (Indent cfg =? 1); induction k as [|k IH]; auto.
Qed.

Lemma pp_byte_strip (cfg : EncoderConfig) (ch : byte) (p : PState) :
  strip (pout (pp_byte cfg ch p)) = strip (pout p) ++ strip [ch].
Proof.
  unfold pp_byte.
  repeat match goal with
         | |- context [if ?x then _ else _] => destruct x
         end;
    cbn [pout]; rewrite ?strip_app, ?strip_indentNewLine, ?app_nil_r;
    reflexivity.
Qed.

Lemma pp_run_strip (cfg : EncoderConfig) (bs : list byte) :
  forall p, strip (pout (pp_run cfg bs p)) = strip (pout p) ++ strip bs.
Proof.
  induction bs as [|ch bs IH]; intros p.
  - change (pp_run cfg [] p) with p. rewrite app_nil_r. reflexivity.
  - change (pp_run cfg (ch :: bs) p) with (pp_run cfg bs (pp_byte cfg ch p)).
    rewrite IH, pp_byte_strip, <- app_assoc, <- strip_app. reflexivity.
Qed.

(** X4.  The reformatter only inserts newlines, spaces and tabs: on a
    buffer without a zero byte, [PrettyPrint] returns, and the buffer
    before and after hold the same bytes once newline, space and tab bytes
    are dropped from both; no byte is removed, so the buffer is at least as
    long as before; the pipe is not touched. *)
Theorem PrettyPrint_inserts_whitespace_only (grow : Z -> Z -> Z) (st : World)
  (buf : Buffer) :
  b (enc st) = Some buf ->
  Forall nonzero (unread buf) ->
  exists st',
    PrettyPrint grow st = Ok tt st' /\
    strip (pending st') = strip (unread buf) /\
    len (unread buf) <= len (pending st') /\
    pipe st' = pipe st.
Proof.
  intros Hb Hnz.
  destruct (PrettyPrint_nonzero grow st buf Hb Hnz)
    as (st' & Hrun & Hpend & _ & _ & _ & Hpipe).
  exists st'. split; [exact Hrun|]. rewrite Hpend.
  split; [apply (pp_run_strip _ _ (mkPState _ _ []))|].
  split; [|exact Hpipe].
  apply (pp_run_grows _ _ (mkPState _ _ [])).
Qed.

Lemma PrettyPrint_inserts_whitespace_only_witness :
  b (enc (acquired sampleJSON)) = Some (mkBuffer sampleJSON 4096) /\
  Forall nonzero sampleJSON /\
  exists st',
    PrettyPrint grow2 (acquired sampleJSON) = Ok tt st' /\
    strip (pending st') = strip sampleJSON /\
    len sampleJSON <= len (pending st') /\
    pipe st' = pipe (acquired sampleJSON).
Proof.
  split; [reflexivity|]. split; [exact sampleJSON_nonzero|].
  exact (PrettyPrint_inserts_whitespace_only grow2 (acquired sampleJSON)
           (mkBuffer sampleJSON 4096) eq_refl sampleJSON_nonzero).
Defined.

Lemma pp_byte_ps (cfg : EncoderConfig) (ch : byte) (p : PState) :
  ps (pp_byte cfg ch p) = if is_byte ch quoteMark then negb (ps p) else ps p.
Proof.
  unfold pp_byte.
  repeat match goal with
         | |- context [if ?x then _ else _] => destruct x eqn:?
         end;
    cbn [ps]; congruence.
Qed.

Lemma quotes_cons (ch : byte) (bs : list byte) :
  quotes (ch :: bs) =
  if is_byte ch quoteMark then S (quotes bs) else quotes bs.
Proof.
  unfold quotes. cbn [count_occ].
  destruct (Byte.byte_eq_dec ch quoteMark) as [->|Hne].
  - rewrite is_byte_refl. reflexivity.
  - rewrite (is_byte_neq _ _ Hne). reflexivity.
Qed.

Lemma pp_run_ps (cfg : EncoderConfig) (bs : list byte) :
  forall p, ps (pp_run cfg bs p) = xorb (ps p) (Nat.odd (quotes bs)).
Proof.
  induction bs as [|ch bs IH]; intros p.
  - change (pp_run cfg [] p) with p. cbn. rewrite xorb_false_r. reflexivity.
  - change (pp_run cfg (ch :: bs) p) with (pp_run cfg bs (pp_byte cfg ch p)).
    rewrite IH, pp_byte_ps, quotes_cons.
    destruct (is_byte ch quoteMark); [|reflexivity].
    rewrite Nat.odd_succ, <- Nat.negb_odd.
    destruct (ps p), (Nat.odd (quotes bs)); reflexivity.
Qed.

(** X5.  The in-string flag follows the parity of the quote marks and of
    nothing else: after a pass over a buffer without a zero byte the flag
    is the flag before the pass, flipped when the buffer holds an odd
    number of quote marks.  A quote mark that follows a backslash counts
    like any other. *)
Theorem PrettyPrint_flag_is_quote_parity (grow : Z -> Z -> Z) (st : World)
  (buf : Buffer) :
  b (enc st) = Some buf ->
  Forall nonzero (unread buf) ->
  (exists st',
     PrettyPrint grow st = Ok tt st' /\
     s (enc st') = xorb (s (enc st)) (Nat.odd (quotes (unread buf)))) /\
  (forall cfg pre p,
     ps (pp_run cfg (pre ++ [backslash; quoteMark]) p) =
     negb (ps (pp_run cfg pre p))).
Proof.
  intros Hb Hnz. split.
  - destruct (PrettyPrint_nonzero grow st buf Hb Hnz)
      as (st' & Hrun & _ & _ & Hs & _).
    exists st'. split; [exact Hrun|]. rewrite Hs.
    apply (pp_run_ps _ _ (mkPState _ _ [])).
  - intros cfg pre p. rewrite pp_run_app.
    rewrite (pp_run_ps cfg [backslash; quoteMark]).
    destruct (ps (pp_run cfg pre p)); reflexivity.
Qed.

Lemma PrettyPrint_flag_is_quote_parity_witness :
  b (enc (acquired sampleJSON)) = Some (mkBuffer sampleJSON 4096) /\
  Forall nonzero sampleJSON /\
  exists st',
    PrettyPrint grow2 (acquired sampleJSON) = Ok tt st' /\
    s (enc st') =
      xorb (s (enc (acquired sampleJSON))) (Nat.odd (quotes sampleJSON)).
Proof.
  split; [reflexivity|]. split; [exact sampleJSON_nonzero|].
  exact (proj1 (PrettyPrint_flag_is_quote_parity grow2 (acquired sampleJSON)
                  (mkBuffer sampleJSON 4096) eq_refl sampleJSON_nonzero)).
Defined.

(** ** Indentation *)

Lemma wrap64_small (z : Z) : - 2 ^ 63 <= z < 2 ^ 63 -> wrap64 z = z.
Proof.
  intros Hz. unfold wrap64. rewrite Z.mod_small; lia.
Qed.

(** X6.  [indentNewLine] writes a newline and then, for a depth between
    0 and 2^60: four spaces per level when [Indent] is [SPACE_MODE], one
    tab per level when it is [TAB_MODE], and one space per level for any
    other value of [Indent].  At depth 0 and at a negative depth, which is
    where closing braces without their opening ones lead, the newline is
    all it writes. *)
Theorem indentNewLine_modes (cfg : EncoderConfig) (dep : Z) :
  - 2 ^ 60 < dep < 2 ^ 60 ->
  (Indent cfg = SPACE_MODE ->
   indentNewLine cfg dep = newLine :: repeat space (Z.to_nat (4 * dep))) /\
  (Indent cfg = TAB_MODE ->
   indentNewLine cfg dep = newLine :: repeat tab (Z.to_nat dep)) /\
  (Indent cfg <> SPACE_MODE -> Indent cfg <> TAB_MODE ->
   indentNewLine cfg dep = newLine :: repeat space (Z.to_nat dep)) /\
  (dep <= 0 -> indentNewLine cfg dep = [newLine]).
Proof.
  intros Hd. unfold indentNewLine, SPACE_MODE, TAB_MODE, INDENT. cbn zeta.
  assert (H4 : wrap64 (dep * 4) = 4 * dep) by (rewrite wrap64_small; lia).
  assert (H1 : wrap64 (dep * 1) = dep) by (rewrite wrap64_small; lia).
  split; [|split; [|split]].
  - intros ->. cbn [Z.eqb negb]. rewrite H4. reflexivity.
  - intros ->. cbn [Z.eqb negb]. rewrite H1. reflexivity.
  - intros H0 Ht. apply Z.eqb_neq in H0, Ht. rewrite H0, Ht. cbn [negb].
    rewrite H1. reflexivity.
  - intros Hneg.
    destruct (negb (Indent cfg =? 0)); rewrite ?H4, ?H1;
      (replace (Z.to_nat _) with 0%nat by lia); reflexivity.
Qed.

Lemma indentNewLine_modes_witness :
  - 2 ^ 60 < 2 < 2 ^ 60 /\
  (Indent (c NewEncoder) = SPACE_MODE ->
   indentNewLine (c NewEncoder) 2 =
   newLine :: repeat space (Z.to_nat (4 * 2))).
Proof.
  assert (H : - 2 ^ 60 < 2 < 2 ^ 60) by (split; reflexivity).
  split; [exact H|].
  exact (proj1 (indentNewLine_modes (c NewEncoder) 2 H)).
Defined.

(** ** Acquisition and release *)

(** X7.  [GetEncoder] hands out an encoder with an empty buffer, whatever
    the pooled buffer held, zero counters, depth 0, the default
    configuration, an unfired token and the writer it was given.  It asks
    [Grow] for [MAXBUFSIZE - Cap()] more bytes on the empty buffer, so a
    pooled buffer whose capacity is at least half of [MAXBUFSIZE] is
    handed out as it is, and a smaller one is reallocated; when [Grow]
    makes the room it is asked for, the capacity is at least half of
    [MAXBUFSIZE]. *)
Theorem GetEncoder_fresh (grow : Z -> Z -> Z) (attached : bool)
  (pooled : Buffer) :
  exists buf,
    GetEncoder grow attached pooled =
      mkEncoder (Some buf) 0 0 0 false 0 0 attached (c NewEncoder)
                (Some false) /\
    unread buf = [] /\
    (MAXBUFSIZE <= 2 * capacity pooled -> capacity buf = capacity pooled) /\
    (2 * capacity pooled < MAXBUFSIZE ->
     capacity buf = grow (capacity pooled) (MAXBUFSIZE - capacity pooled)) /\
    ((forall cap need, need <= grow cap need) ->
     MAXBUFSIZE <= 2 * capacity buf) /\
    (forall p,
       attached = true -> broken p = false ->
       live (mkWorld (GetEncoder grow attached pooled) p)) /\
    (forall p,
       attached = true -> received p = [] ->
       sound (mkWorld (GetEncoder grow attached pooled) p)).
Proof.
  assert (Hlive : forall p,
            attached = true -> broken p = false ->
            live (mkWorld (GetEncoder grow attached pooled) p)).
  { intros p -> Hp. split; [eexists; reflexivity|].
    split; [reflexivity|]. split; [reflexivity|exact Hp]. }
  assert (Hsound : forall p,
            attached = true -> received p = [] ->
            sound (mkWorld (GetEncoder grow attached pooled) p)).
  { intros p -> Hp. split; [split; [eexists; reflexivity|split]|split].
    - reflexivity.
    - exists false. reflexivity.
    - cbn [enc pipe]. rewrite Hp. reflexivity.
    - cbn [enc pipe]. rewrite Hp. reflexivity. }
  assert (Hg : capacity (buf_Grow grow (4096 - capacity pooled)
                           (buf_Reset pooled)) =
               if 4096 - capacity pooled <=? capacity pooled
               then capacity pooled
               else grow (capacity pooled) (4096 - capacity pooled))
    by reflexivity.
  exists (if capacity (buf_Reset pooled) <? MAXBUFSIZE
          then buf_Grow grow (MAXBUFSIZE - capacity (buf_Reset pooled))
                        (buf_Reset pooled)
          else buf_Reset pooled).
  split; [reflexivity|].
  split; [|split; [|split; [|split; [|split; assumption]]]];
    unfold MAXBUFSIZE;
    change (capacity (buf_Reset pooled)) with (capacity pooled);
    (destruct (capacity pooled <? 4096) eqn:E1;
     [apply Z.ltb_lt in E1; rewrite ?Hg
     |apply Z.ltb_ge in E1;
      change (capacity (buf_Reset pooled)) with (capacity pooled)]);
    try reflexivity;
    try (destruct (4096 - capacity pooled <=? capacity pooled) eqn:E2;
         [apply Z.leb_le in E2|apply Z.leb_gt in E2]);
    intros; try lia;
    match goal with
    | H : forall cap need, need <= grow cap need |- _ =>
        pose proof (H (capacity pooled) (4096 - capacity pooled)); lia
    end.
Qed.

Lemma Release_nil_buffer (recovered : bool) (st : World) :
  b (enc st) = None -> exists stp, Release recovered st = Panic stp.
Proof.
  intros Hb. unfold Release. destruct recovered.
  - unfold cancel, pipe_Close. step.
    destruct (ctx (enc st)) as [fired|]; [|eauto]. cbn beta iota.
    cbn [enc pipe w set_ctx].
    destruct (w (enc st)); [|eauto]. cbn beta iota. cbn [enc pipe b set_ctx].
    rewrite Hb. eauto.
  - step. rewrite Hb. eauto.
Qed.

(** X8.  [Release] outside a panic writes nothing: it returns the flush
    count, the byte count and the capacity of the buffer, and resets the
    encoder; the bytes still in the buffer are dropped, the pipe is left
    as it was, not closed, and the token is left as it was, not fired.
    (The reader of [TestEncoderRelease], case [remaining writes], is never
    handed the ten bytes it waits for.) *)
Theorem Release_drops_pending (st : World) (buf : Buffer) :
  b (enc st) = Some buf ->
  exists st',
    Release false st = Ok (f (enc st), n (enc st), capacity buf) st' /\
    pipe st' = pipe st /\
    ctx (enc st') = ctx (enc st) /\
    b (enc st') = None /\
    w (enc st') = false /\
    (n (enc st'), f (enc st'), d (enc st'), s (enc st')) = (0, 0, 0, false) /\
    c (enc st') = Config_Reset (c (enc st)).
Proof.
  intros Hb. rewrite (Release_returning st buf Hb).
  eexists. split; [reflexivity|]. repeat split.
Qed.

Lemma Release_drops_pending_witness :
  b (enc (acquired sampleJSON)) = Some (mkBuffer sampleJSON 4096) /\
  exists st',
    Release false (acquired sampleJSON) = Ok (0, 0, 4096) st' /\
    pipe st' = openPipe /\
    ctx (enc st') = Some false /\
    b (enc st') = None.
Proof.
  split; [reflexivity|].
  destruct (Release_drops_pending (acquired sampleJSON)
              (mkBuffer sampleJSON 4096) eq_refl)
    as (st' & H1 & H2 & H3 & H4 & _).
  exists st'. repeat split; assumption.
Defined.

(** X9.  After [Release] the encoder has no buffer, and every use of it
    that reaches the buffer panics: [Bytes], [Len], [PrettyPrint],
    [Write], [Close], and [Release] itself, recovering or not.  The
    appends look at the token first: they panic while it has not fired and
    do nothing once it has. *)
Theorem released_encoder_panics (grow : Z -> Z -> Z) (st : World) (v : byte)
  (vs : list byte) :
  b (enc st) = None ->
  Bytes st = Panic st /\
  Len st = Panic st /\
  PrettyPrint grow st = Panic st /\
  Write grow st = Panic st /\
  Close grow st = Panic st /\
  (forall recovered, exists stp, Release recovered st = Panic stp) /\
  (ctx (enc st) = Some false ->
   AppendByte grow v st = Panic st /\ AppendBytes grow vs st = Panic st) /\
  (ctx (enc st) = Some true ->
   AppendByte grow v st = Ok tt st /\ AppendBytes grow vs st = Ok tt st).
Proof.
  intros Hb.
  assert (Hw : write grow st = Panic st) by (rewrite write_cases, Hb; reflexivity).
  split; [unfold Bytes; step; rewrite Hb; reflexivity|].
  split; [unfold Len; step; rewrite Hb; reflexivity|].
  split; [unfold PrettyPrint; step; rewrite Hb; reflexivity|].
  split; [exact Hw|].
  split; [unfold Close, Write, bind; rewrite Hw; reflexivity|].
  split; [intros r; apply Release_nil_buffer, Hb|].
  split; intros Hctx.
  - unfold AppendByte, AppendBytes. step. rewrite Hctx. cbn beta iota.
    rewrite Hb. split; reflexivity.
  - split; [apply AppendByte_done|apply AppendBytes_done]; exact Hctx.
Qed.

Lemma released_encoder_panics_witness :
  b (enc (mkWorld (reset_enc (enc (acquired []))) openPipe)) = None /\
  Write grow2 (mkWorld (reset_enc (enc (acquired []))) openPipe) =
    Panic (mkWorld (reset_enc (enc (acquired []))) openPipe).
Proof.
  split; [reflexivity|].
  exact (proj1 (proj2 (proj2 (proj2
           (released_encoder_panics grow2
              (mkWorld (reset_enc (enc (acquired []))) openPipe)
              x61 [x61] eq_refl))))).
Defined.

(** ** Close *)

Lemma shutdown_eq (st : World) (fired : bool) :
  w (enc st) = true -> ctx (enc st) = Some fired ->
  (cancel ;;; pipe_Close) st = Ok tt (shut st).
Proof.
  intros Hw Hctx. unfold cancel, pipe_Close. step. rewrite Hctx.
  cbn beta iota. cbn [enc pipe w set_ctx]. rewrite Hw. reflexivity.
Qed.

Lemma Close_eq (grow : Z -> Z -> Z) (st st1 : World) (fired : bool) :
  write grow st = Ok tt st1 ->
  w (enc st1) = true -> ctx (enc st1) = Some fired ->
  Close grow st = Ok tt (shut st1).
Proof.
  intros Hwr Hw Hctx. unfold Close, Write. unfold bind at 1. rewrite Hwr.
  apply (shutdown_eq st1 fired Hw Hctx).
Qed.

Lemma shut_sound (st : World) : sound st -> sound (shut st).
Proof.
  intros [(Hb & Hw & Hctx) Hc]. split; [|exact Hc].
  unfold attached, shut. cbn [enc b w ctx set_ctx]. eauto.
Qed.




(** X11.  [Close] delivers what is pending and shuts the encoder down:
    with [Pretty] off, on an encoder with a buffer, an unfired token and
    an open pipe, appends followed by [Close] return; the pipe has then
    received the whole stream, in order; the buffer is empty, the token is
    fired and the writing end is closed.  From then on an append does
    nothing, and a second [Close] changes nothing. *)
Theorem Close_delivers_the_stream (grow : Z -> Z -> Z) (ops : list Op)
  (st : World) :
  live st -> Pretty (c (enc st)) = false ->
  exists st',
    (run_ops grow ops ;;; Close grow) st = Ok tt st' /\
    List.concat (received (pipe st')) = stream st ++ flat_map payload ops /\
    pending st' = [] /\
    ctx (enc st') = Some true /\
    wclosed (pipe st') = true /\
    (counted st -> counted st') /\
    (forall v, AppendByte grow v st' = Ok tt st') /\
    (forall vs, AppendBytes grow vs st' = Ok tt st') /\
    Close grow st' = Ok tt st'.
Proof.
  intros Hl Hp.
  destruct (run_ops_live grow ops st Hl Hp)
    as (st1 & news & Hrun & Hl1 & Hc1 & Hs1 & Hr1 & Hf1 & Hcnt1).
  destruct (write_live grow st1 Hl1) as
    (st2 & Hwr & Hl2 & Hc2 & Hs2 & Hpend2 & Hcnt2 & _).
  { rewrite Hc1. exact Hp. }
  destruct Hl2 as ((buf & Hb2) & Hctx2 & Hw2 & Hbr2).
  exists (shut st2).
  split; [unfold bind at 1; rewrite Hrun;
          apply (Close_eq grow st1 st2 false Hwr Hw2 Hctx2)|].
  assert (Hnil : unread buf = []).
  { unfold pending in Hpend2. rewrite Hb2 in Hpend2. exact Hpend2. }
  split; [|split; [|split; [reflexivity|split; [reflexivity|split]]]].
  - cbn [shut pipe received]. rewrite <- Hs1, <- Hs2. unfold stream.
    rewrite Hpend2, app_nil_r. reflexivity.
  - unfold pending, shut. cbn [enc b set_ctx]. rewrite Hb2. exact Hnil.
  - intros Hc. specialize (Hcnt2 (Hcnt1 Hc)). exact Hcnt2.
  - split; [intros v; apply AppendByte_done; reflexivity|].
    split; [intros vs; apply AppendBytes_done; reflexivity|].
    assert (Hwr' : write grow (shut st2) = Ok tt (shut st2))
      by (apply (write_empty grow (shut st2) buf); assumption).
    rewrite (Close_eq grow (shut st2) (shut st2) true Hwr' Hw2 eq_refl).
    reflexivity.
Qed.

Lemma Close_delivers_the_stream_witness :
  live (acquired []) /\
  Pretty (c (enc (acquired []))) = false /\
  exists st',
    (run_ops grow2 sampleOps ;;; Close grow2) (acquired []) = Ok tt st' /\
    List.concat (received (pipe st')) =
      stream (acquired []) ++ flat_map payload sampleOps /\
    pending st' = [] /\
    ctx (enc st') = Some true /\
    wclosed (pipe st') = true.
Proof.
  split; [exact (acquired_live [])|]. split; [reflexivity|].
  destruct (Close_delivers_the_stream grow2 sampleOps (acquired [])
              (acquired_live []) eq_refl)
    as (st' & H1 & H2 & H3 & H4 & H5 & _).
  exists st'. repeat split; assumption.
Defined.

(** ** Failing writes *)

(** X12.  What [write] does when it cannot deliver.  With an empty buffer
    it returns at once, before it looks at the token or the writer: a
    [nil] context, a [nil] writer or a broken pipe does not matter.  With
    bytes pending, the token unfired and [Pretty] off, a [nil] writer or a
    broken pipe makes it panic in the very state it was called in: the
    bytes are still in the buffer and the counters are untouched.  With
    [Pretty] on the panic comes after the reformatting: the buffer then
    holds the reformatted bytes and the depth and the flag have moved. *)
Theorem write_failure_keeps_the_bytes (grow : Z -> Z -> Z) (st : World)
  (buf : Buffer) :
  b (enc st) = Some buf ->
  (unread buf = [] -> write grow st = Ok tt st) /\
  (unread buf <> [] -> ctx (enc st) = Some false ->
   Pretty (c (enc st)) = false ->
   w (enc st) = false \/ broken (pipe st) = true ->
   write grow st = Panic st) /\
  (unread buf <> [] -> ctx (enc st) = Some false ->
   Pretty (c (enc st)) = true ->
   Forall nonzero (unread buf) ->
   w (enc st) = false \/ broken (pipe st) = true ->
   exists stp,
     write grow st = Panic stp /\
     pending stp =
       pout (pp_run (c (enc st)) (unread buf)
               (mkPState (d (enc st)) (s (enc st)) [])) /\
     (f (enc stp), n (enc stp)) = (f (enc st), n (enc st)) /\
     pipe stp = pipe st).
Proof.
  intros Hb.
  assert (Hlen : unread buf <> [] -> (len (unread buf) =? 0) = false).
  { intros Hne. apply Z.eqb_neq. destruct (unread buf); [contradiction|].
    rewrite len_cons. pose proof (len_nonneg l). lia. }
  split; [apply (write_empty grow st buf Hb)|]. split.
  - intros Hne Hctx Hp Hbad. rewrite write_cases, Hb, Hctx, (Hlen Hne).
    unfold prepared. rewrite Hp, Hb. cbn zeta.
    destruct (w (enc st)); [|reflexivity].
    destruct Hbad as [Hbad|Hbad]; [discriminate|]. rewrite Hbad. reflexivity.
  - intros Hne Hctx Hp Hnz Hbad. rewrite write_cases, Hb, Hctx, (Hlen Hne).
    cbn zeta.
    destruct (prepared_keeps grow st buf Hb)
      as (Hf1 & Hn1 & Hw1 & _ & _ & Hp1 & buf1 & Hb1).
    assert (Hpend : pending (prepared grow st buf) =
                    pout (pp_run (c (enc st)) (unread buf)
                            (mkPState (d (enc st)) (s (enc st)) []))).
    { destruct (PrettyPrint_nonzero grow st buf Hb Hnz)
        as (st' & Hrun & Hpend & _).
      rewrite (PrettyPrint_eq grow st buf Hb) in Hrun.
      injection Hrun as <-. unfold prepared. rewrite Hp. exact Hpend. }
    exists (prepared grow st buf). rewrite Hb1, Hw1, Hp1, Hf1, Hn1.
    split; [|auto].
    destruct (w (enc st)); [|reflexivity].
    destruct Hbad as [Hbad|Hbad]; [discriminate|]. rewrite Hbad. reflexivity.
Qed.

Lemma write_failure_keeps_the_bytes_witness :
  b (enc (readerGone sampleJSON)) = Some (mkBuffer sampleJSON 4096) /\
  write grow2 (readerGone sampleJSON) = Panic (readerGone sampleJSON).
Proof.
  split; [reflexivity|].
  refine (proj1 (proj2 (write_failure_keeps_the_bytes grow2
                          (readerGone sampleJSON)
                          (mkBuffer sampleJSON 4096) eq_refl))
                _ eq_refl eq_refl (or_intror eq_refl)).
  intros H. discriminate H.
Defined.

(** ** The writers, on the stream *)

Lemma run_ops_app (grow : Z -> Z -> Z) (xs ys : list Op) (st : World) :
  run_ops grow (xs ++ ys) st = (run_ops grow xs ;;; run_ops grow ys) st.
Proof.
  revert st. induction xs as [|o xs IH]; intros st.
  - reflexivity.
  - cbn [Datatypes.app run_ops]. unfold bind.
    destruct (perform grow o st) as [[] st1|st1]; [|reflexivity].
    rewrite IH. reflexivity.
Qed.



(** X14.  The structural writers are fixed sequences of appends:
    [ObjectStart], [ObjectEnd], [ArrayStart], [ArrayEnd] and [Delim]
    append their one byte; [EncodeKey] appends a quote mark, the key as it
    is, byte for byte, and a quote mark; [ObjectKey] adds a colon.  One
    sequence run after another is the concatenation run at once.  So, with
    [Pretty] off, on an encoder with a buffer, an unfired token and an
    open pipe, [EncodeKey] and [ObjectKey] return and extend the stream by
    the quoted key, and by the quoted key and a colon, whatever bytes the
    key holds and however long it is. *)
Theorem structural_writers (grow : Z -> Z -> Z) (st : World)
  (key : list byte) :
  live st -> Pretty (c (enc st)) = false ->
  (forall st1,
     ObjectStart grow st1 = run_ops grow [OpByte lBrace] st1 /\
     ObjectEnd grow st1 = run_ops grow [OpByte rBrace] st1 /\
     ArrayStart grow st1 = run_ops grow [OpByte lBracket] st1 /\
     ArrayEnd grow st1 = run_ops grow [OpByte rBracket] st1 /\
     Delim grow st1 = run_ops grow [OpByte delim] st1 /\
     EncodeKey grow key st1 =
       run_ops grow [OpByte quoteMark; OpBytes key; OpByte quoteMark] st1 /\
     ObjectKey grow key st1 = run_ops grow (keyOps key) st1) /\
  (forall xs ys st1,
     (run_ops grow xs ;;; run_ops grow ys) st1 = run_ops grow (xs ++ ys) st1) /\
  (exists st',
     EncodeKey grow key st = Ok tt st' /\
     stream st' = stream st ++ quoted key /\ live st') /\
  (exists st',
     ObjectKey grow key st = Ok tt st' /\
     stream st' = stream st ++ quoted key ++ [colon] /\ live st').
Proof.
  intros Hl Hp.
  assert (Hops : forall st1,
     ObjectStart grow st1 = run_ops grow [OpByte lBrace] st1 /\
     ObjectEnd grow st1 = run_ops grow [OpByte rBrace] st1 /\
     ArrayStart grow st1 = run_ops grow [OpByte lBracket] st1 /\
     ArrayEnd grow st1 = run_ops grow [OpByte rBracket] st1 /\
     Delim grow st1 = run_ops grow [OpByte delim] st1 /\
     EncodeKey grow key st1 =
       run_ops grow [OpByte quoteMark; OpBytes key; OpByte quoteMark] st1 /\
     ObjectKey grow key st1 = run_ops grow (keyOps key) st1).
  { intros st1.
    unfold ObjectStart, ObjectEnd, ArrayStart, ArrayEnd, Delim, ObjectKey,
      EncodeKey, keyOps.
    cbv beta iota delta [run_ops perform bind ret].
    repeat split; by_results. }
  split; [exact Hops|].
  split; [intros xs ys st1; symmetry; apply run_ops_app|].
  destruct (Hops st) as (_ & _ & _ & _ & _ & He & Ho).
  split.
  - rewrite He.
    destruct (run_ops_live grow [OpByte quoteMark; OpBytes key; OpByte quoteMark]
                st Hl Hp) as (st' & news & Hrun & Hl' & _ & Hs & _).
    exists st'. split; [exact Hrun|]. split; [|exact Hl'].
    rewrite Hs. cbn [flat_map payload quoted Datatypes.app].
    rewrite ?app_nil_r. reflexivity.
  - rewrite Ho.
    destruct (run_ops_live grow (keyOps key) st Hl Hp)
      as (st' & news & Hrun & Hl' & _ & Hs & _).
    exists st'. split; [exact Hrun|]. split; [|exact Hl'].
    rewrite Hs. cbn [keyOps flat_map payload quoted Datatypes.app].
    rewrite ?app_nil_r, <- ?app_assoc. reflexivity.
Qed.

Lemma structural_writers_witness :
  live (acquired []) /\
  Pretty (c (enc (acquired []))) = false /\
  exists st',
    ObjectKey grow2 (bytes_of "/foo/bar") (acquired []) = Ok tt st' /\
    stream st' =
      stream (acquired []) ++ quoted (bytes_of "/foo/bar") ++ [colon] /\
    live st'.
Proof.
  split; [exact (acquired_live [])|]. split; [reflexivity|].
  exact (proj2 (proj2 (proj2
           (structural_writers grow2 (acquired []) (bytes_of "/foo/bar")
              (acquired_live []) eq_refl)))).
Defined.

(** ** More on [Escape] *)








(** ** Float keys *)




(** ** The timeout *)

(** X17.  The timer branch of the goroutine of [WithTimeout] never
    panics, whatever state the encoder is in.  On an encoder with its
    writer and context it counts one timeout, fires the token and closes
    the writing end; the bytes pending at that moment are then never
    delivered: the appends do nothing any more and a later [Close] returns
    without the pipe receiving anything.  On an encoder that has been
    released (no writer) it fires the token, panics on the [nil] writer,
    recovers and counts the recovered panic; the pipe is left alone. *)
Theorem timeout_never_panics (grow : Z -> Z -> Z) (st : World) :
  (exists st', timerFires st = Ok tt st') /\
  (forall buf fired,
     b (enc st) = Some buf -> w (enc st) = true ->
     ctx (enc st) = Some fired ->
     exists st',
       timerFires st = Ok tt st' /\
       encoderTimeoutsCounter (enc st') =
         wrap64 (encoderTimeoutsCounter (enc st) + 1) /\
       recoveredPanicsCounter (enc st') = recoveredPanicsCounter (enc st) /\
       ctx (enc st') = Some true /\
       wclosed (pipe st') = true /\
       received (pipe st') = received (pipe st) /\
       pending st' = pending st /\
       (forall v, AppendByte grow v st' = Ok tt st') /\
       (forall vs, AppendBytes grow vs st' = Ok tt st') /\
       exists st'',
         Close grow st' = Ok tt st'' /\
         received (pipe st'') = received (pipe st)) /\
  (forall fired,
     w (enc st) = false -> ctx (enc st) = Some fired ->
     exists st',
       timerFires st = Ok tt st' /\
       encoderTimeoutsCounter (enc st') =
         wrap64 (encoderTimeoutsCounter (enc st) + 1) /\
       recoveredPanicsCounter (enc st') =
         wrap64 (recoveredPanicsCounter (enc st) + 1) /\
       ctx (enc st') = Some true /\
       pipe st' = pipe st).
Proof.
  split; [|split].
  - unfold timerFires.
    match goal with
    | |- context [match ?x with Ok _ _ => _ | Panic _ => _ end] =>
        destruct x; eauto
    end.
  - intros buf fired Hb Hw Hctx.
    unfold timerFires, cancel, pipe_Close. step.
    cbn [enc pipe ctx w set_encoderTimeoutsCounter]. rewrite Hctx.
    cbn beta iota. cbn [enc pipe ctx w set_ctx set_encoderTimeoutsCounter].
    rewrite Hw.
    eexists. split; [reflexivity|].
    cbn [enc pipe encoderTimeoutsCounter recoveredPanicsCounter ctx wclosed
         received set_ctx].
    do 5 (split; [reflexivity|]).
    split; [unfold pending;
            cbn [enc b set_ctx set_encoderTimeoutsCounter]; reflexivity|].
    split; [intros v; apply AppendByte_done; reflexivity|].
    split; [intros vs; apply AppendBytes_done; reflexivity|].
    match goal with
    | |- exists st'', Close grow ?x = _ /\ _ =>
        exists (shut x); split; [|reflexivity];
        apply (Close_eq grow x x true); [|exact Hw|reflexivity];
        apply (write_done grow x buf); [exact Hb|reflexivity]
    end.
  - intros fired Hw Hctx.
    unfold timerFires, cancel, pipe_Close. step.
    cbn [enc pipe ctx w set_encoderTimeoutsCounter]. rewrite Hctx.
    cbn beta iota. cbn [enc pipe ctx w set_ctx set_encoderTimeoutsCounter].
    rewrite Hw.
    eexists. split; [reflexivity|]. repeat split.
Qed.

(** ** The writers and the reformatter together *)



















(** ** Reading timestamps back *)

Lemma date_back_uint32 (days : Z) :
  -2 <= days <= 49713 -> date_back days = true.
Proof.
  intros Hd.
  assert (H : all_from date_back (-2) (Z.to_nat 49716) = true)
    by (vm_compute; reflexivity).
  pose proof (all_from_spec date_back _ (-2) H days) as Hc.
  rewrite Z2Nat.id in Hc by lia. apply Hc. lia.
Qed.

Lemma unixOf_civil (abs : Z) :
  -2 * 86400 <= abs < 49714 * 86400 -> unixOf (civil abs) = abs.
Proof.
  intros Ha.
  assert (Hd : -2 <= abs / 86400 <= 49713).
  { split.
    - apply Z.div_le_lower_bound; lia.
    - assert (abs / 86400 < 49714) by (apply Z.div_lt_upper_bound; lia).
      lia. }
  pose proof (date_back_uint32 _ Hd) as Hok.
  unfold date_back in Hok. unfold unixOf, civil.
  destruct (dateOfDays (abs / 86400)) as [[yy mm] dd].
  cbn [year month day hour minute second].
  apply Z.eqb_eq in Hok. rewrite Hok.
  pose proof (Z.div_mod abs 86400 ltac:(lia)).
  pose proof (Z.div_mod (abs mod 86400) 3600 ltac:(lia)).
  pose proof (Z.div_mod ((abs mod 86400) mod 3600) 60 ltac:(lia)).
  pose proof (Z.div_mod (abs mod 86400) 60 ltac:(lia)).
  pose proof (Z.mod_pos_bound (abs mod 86400) 60 ltac:(lia)).
  pose proof (Z.mod_pos_bound ((abs mod 86400) mod 3600) 60 ltac:(lia)).
  lia.
Qed.

Lemma digitValue_digit (x : Z) : 0 <= x <= 9 -> digitValue (digit x) = x.
Proof.
  intros Hx.
  assert (H : x = 0 \/ x = 1 \/ x = 2 \/ x = 3 \/ x = 4 \/ x = 5 \/ x = 6 \/
              x = 7 \/ x = 8 \/ x = 9) by lia.
  repeat (destruct H as [H|H]; [subst x; reflexivity|]).
  subst x. reflexivity.
Qed.

Lemma digit_inj (x y : Z) :
  0 <= x <= 9 -> 0 <= y <= 9 -> digit x = digit y -> x = y.
Proof.
  intros Hx Hy E. apply (f_equal digitValue) in E.
  rewrite !digitValue_digit in E by assumption. exact E.
Qed.

Lemma isoText_inj (t1 t2 : Civil) :
  in_range t1 -> in_range t2 -> isoText t1 = isoText t2 -> t1 = t2.
Proof.
  intros (Hy1 & Hm1 & Hd1 & Hh1 & Hmi1 & Hs1)
         (Hy2 & Hm2 & Hd2 & Hh2 & Hmi2 & Hs2) E.
  assert (Q : forall x k, 0 < k -> 0 <= x < 10 * k -> 0 <= x / k <= 9).
  { intros x k Hk Hx. split; [apply Z.div_pos; lia|].
    assert (x / k < 10) by (apply Z.div_lt_upper_bound; lia). lia. }
  assert (R : forall x, 0 <= x mod 10 <= 9)
    by (intros x; pose proof (Z.mod_pos_bound x 10); lia).
  assert (T : forall x y, 0 <= x <= 99 -> 0 <= y <= 99 ->
                          digit (x / 10) = digit (y / 10) ->
                          digit (x mod 10) = digit (y mod 10) -> x = y).
  { intros x y Hx Hy Ea Eb.
    apply digit_inj in Ea; [|apply Q; lia|apply Q; lia].
    apply digit_inj in Eb; [|apply R|apply R].
    rewrite (Z.div_mod x 10), (Z.div_mod y 10) by lia. lia. }
  unfold isoText, two, four in E. cbn [Datatypes.app] in E.
  injection E as E1 E2 E3 E4 E5 E6 E7 E8 E9 E10 E11 E12 E13 E14.
  assert (F : forall y, y = 1000 * (y / 1000) + 100 * (y / 100 mod 10) +
                            10 * (y / 10 mod 10) + y mod 10).
  { intros y.
    pose proof (Z.div_mod y 10 ltac:(lia)).
    pose proof (Z.div_mod (y / 10) 10 ltac:(lia)).
    pose proof (Z.div_mod (y / 100) 10 ltac:(lia)).
    assert (y / 10 / 10 = y / 100) by (rewrite Z.div_div by lia; reflexivity).
    assert (y / 100 / 10 = y / 1000)
      by (rewrite Z.div_div by lia; reflexivity).
    lia. }
  assert (Ey : year t1 = year t2).
  { apply digit_inj in E1; [|apply Q; lia|apply Q; lia].
    apply digit_inj in E2; [|apply R|apply R].
    apply digit_inj in E3; [|apply R|apply R].
    apply digit_inj in E4; [|apply R|apply R].
    rewrite (F (year t1)), (F (year t2)). lia. }
  destruct t1 as [yy1 mm1 dd1 hh1 mi1 ss1], t2 as [yy2 mm2 dd2 hh2 mi2 ss2].
  cbn [year month day hour minute second] in *.
  f_equal; [exact Ey|apply T; auto; lia..].
Qed.

Lemma civil_inj (a1 a2 : Z) :
  -2 * 86400 <= a1 < 49714 * 86400 ->
  -2 * 86400 <= a2 < 49714 * 86400 ->
  isoText (civil a1) = isoText (civil a2) -> a1 = a2.
Proof.
  intros H1 H2 E.
  apply isoText_inj in E; try (apply civil_in_range; assumption).
  rewrite <- (unixOf_civil a1 H1), <- (unixOf_civil a2 H2), E. reflexivity.
Qed.

(** X20.  The text of a timestamp tells the instant.  For uint32 counts
    of seconds, two instants with the same UTC text are the same instant;
    so are two instants with the same local text when the zone offset,
    within a day, is the same at both.  When the offset changes the local
    text does not tell them apart: in a zone that falls back one hour at
    2021-10-31T01:00:00 UTC, the instants half an hour before and half an
    hour after both read 2021-10-31T02:30:00. *)
Theorem timestamp_tells_the_instant (localOffset : Z -> Z) (v1 v2 : N) :
  (v1 < 2 ^ 32)%N -> (v2 < 2 ^ 32)%N ->
  (timestampText localOffset true v1 = timestampText localOffset true v2 ->
   v1 = v2) /\
  (-86400 <= localOffset (Z.of_N v1) <= 86400 ->
   localOffset (Z.of_N v1) = localOffset (Z.of_N v2) ->
   timestampText localOffset false v1 = timestampText localOffset false v2 ->
   v1 = v2) /\
  (timestampText fallBack false 1635640200 =
     bytes_of "2021-10-31T02:30:00" /\
   timestampText fallBack false 1635643800 =
     bytes_of "2021-10-31T02:30:00").
Proof.
  intros Hv1 Hv2.
  assert (B : forall v, (v < 2 ^ 32)%N -> 0 <= Z.of_N v < 4294967296).
  { intros v Hv. split; [apply N2Z.is_nonneg|].
    change 4294967296 with (Z.of_N (2 ^ 32)). apply N2Z.inj_lt. exact Hv. }
  pose proof (B v1 Hv1) as B1. pose proof (B v2 Hv2) as B2.
  split; [|split; [|split; reflexivity]].
  - unfold timestampText.
    rewrite !AppendFormat_ISO8601u by (apply civil_in_range; lia).
    intros E. apply app_inv_tail in E. apply N2Z.inj.
    apply civil_inj; [lia|lia|exact E].
  - intros Hoff Eoff. unfold timestampText. rewrite <- Eoff.
    rewrite !AppendFormat_ISO8601 by (apply civil_in_range; lia).
    intros E. apply civil_inj in E; [|lia|lia]. apply N2Z.inj. lia.
Qed.

Lemma timestamp_tells_the_instant_witness :
  (0 < 2 ^ 32)%N /\ (86400 < 2 ^ 32)%N /\
  timestampText oneHourEast true 0 <> timestampText oneHourEast true 86400.
Proof.
  split; [reflexivity|]. split; [reflexivity|].
  intros E.
  apply (proj1 (timestamp_tells_the_instant oneHourEast 0 86400
                  eq_refl eq_refl)) in E.
  discriminate E.
Defined.
